(** * GamblingOnDogs: order sizing, self-healing submission and the
      single-position trading loop

    A shallow embedding of [src/ai_client.py], [src/okx_client.py] and
    [src/trader.py].  Conventions of the embedding:

    - Python [float]s are modelled by exact rationals ([Q]); rounding,
      infinities and NaN of IEEE arithmetic are outside the model.
    - Python [int]s are [Z]; [int(x)] on a float truncates toward zero.
    - A text that the code only ever passes to [float()] (candle fields, the
      [pos] of a position, the order size [sz]) is represented by what
      [float()] makes of it: [Some q], or [None] when [float()] rejects it.
    - Strings the code inspects (rejection codes and messages, the model's
      answer) are ASCII [string]s.
    - Every call that leaves the process (exchange SDK, HTTP) is answered by a
      [World], indexed by a call clock; the calls made are recorded in a trace.
    - Exceptions are explicit: computations live in a state-and-exception
      monad [M]. *)

From Stdlib Require Import ZArith QArith Qround Qabs Lqa String Ascii List Bool Lia.
From stdpp Require Import base gmap strings.
Import ListNotations.
Local Open Scope Z_scope.

(** ** Python primitives *)

Module Py.

(** The exception classes that occur in the modelled code. [NetworkError] is
    the one declared in [okx_client.py]; the others are built-in or raised by
    [httpx]. *)
Inductive exn : Type :=
  | NetworkError
  | TransportError        (* httpx: connection failure or timeout *)
  | HTTPStatusError       (* httpx: raise_for_status *)
  | JSONDecodeError
  | LookupError           (* KeyError / IndexError / TypeError on indexing *)
  | ValueError
  | ZeroDivisionError
  | SdkError (msg : string).  (* whatever the exchange SDK raises *)

(** [str(e)]. *)
Definition str_exn (e : exn) : string :=
  match e with
  | NetworkError => "NetworkError"
  | TransportError => "TransportError"
  | HTTPStatusError => "HTTPStatusError"
  | JSONDecodeError => "JSONDecodeError"
  | LookupError => "LookupError"
  | ValueError => "ValueError"
  | ZeroDivisionError => "division by zero"
  | SdkError msg => msg
  end.

(** Outcome of running a piece of code: a value, an exception, or a
    [while True] loop that is still running when the fuel is spent. *)
Inductive result (A : Type) : Type :=
  | Ok (a : A)
  | Raise (e : exn)
  | Running.
Arguments Ok {A} a.
Arguments Raise {A} e.
Arguments Running {A}.

(** [float(x)] of a text represented by its numeric reading. [None] stands
    for whatever [float] refuses, text that is no number or a null; the
    class of the exception (a [ValueError] or a [TypeError]) is not told
    apart and is filed under [ValueError]. *)
Definition float (x : option Q) : result Q :=
  match x with Some q => Ok q | None => Raise ValueError end.

(** Truthiness of a float and of an int. *)
Definition truthy (q : Q) : bool := negb (Qeq_bool q 0).
Definition truthyZ (z : Z) : bool := negb (z =? 0).

(** [int(q)]: truncation toward zero. *)
Definition int (q : Q) : Z := Z.quot (Qnum q) (Zpos (Qden q)).

Definition Qltb (a b : Q) : bool := negb (Qle_bool b a).
(** [max(a, b)] and [min(a, b)] of two floats: the first argument wins ties. *)
Definition Qmax (a b : Q) : Q := if Qltb a b then b else a.
Definition Qmin (a b : Q) : Q := if Qltb b a then b else a.

(** [f"{q:.6f}"] followed by [float()]: the value of the six-decimal text,
    rounded half to even. *)
Definition round6 (q : Q) : Q :=
  let x := (q * 1000000)%Q in
  let f := Qfloor x in
  let r := (x - inject_Z f)%Q in
  let n := if Qltb r (1 # 2) then f
           else if Qltb (1 # 2) r then f + 1
           else if Z.even f then f else f + 1 in
  (n # 1000000)%Q.

(** *** Strings *)

Definition lower_ascii (c : ascii) : ascii :=
  let n := nat_of_ascii c in
  if ((65 <=? n) && (n <=? 90))%nat then ascii_of_nat (n + 32) else c.

Fixpoint lower (s : string) : string :=
  match s with
  | EmptyString => EmptyString
  | String c s' => String (lower_ascii c) (lower s')
  end.

Definition is_space (c : ascii) : bool :=
  let n := nat_of_ascii c in
  (((9 <=? n) && (n <=? 13)) || ((28 <=? n) && (n <=? 32)))%nat.

Fixpoint lstrip (s : string) : string :=
  match s with
  | EmptyString => EmptyString
  | String c s' => if is_space c then lstrip s' else s
  end.

Fixpoint rstrip (s : string) : string :=
  match s with
  | EmptyString => EmptyString
  | String c s' =>
      match rstrip s' with
      | EmptyString => if is_space c then EmptyString else String c EmptyString
      | t => String c t
      end
  end.

Definition strip (s : string) : string := rstrip (lstrip s).

(** [needle in hay]. *)
Fixpoint contains (needle hay : string) : bool :=
  String.prefix needle hay ||
  match hay with
  | EmptyString => false
  | String _ hay' => contains needle hay'
  end.

Definition is_digit (c : ascii) : bool :=
  let n := nat_of_ascii c in ((48 <=? n) && (n <=? 57))%nat.

Definition is_digit_or_comma (c : ascii) : bool :=
  is_digit c || Ascii.eqb c ","%char.

(** [int(s.replace(",", ""))] for [s] made of digits and commas; [None] when
    nothing is left after removing the commas ([int("")] raises). *)
Fixpoint digits_value (s : string) (acc : option Z) : option Z :=
  match s with
  | EmptyString => acc
  | String c s' =>
      if is_digit c then
        let d := Z.of_nat (nat_of_ascii c - 48) in
        digits_value s' (Some (10 * default 0 acc + d))
      else digits_value s' acc
  end.

Definition int_without_commas (s : string) : option Z := digits_value s None.

End Py.

Import Py.

(** ** Data model *)

(** A candle row [[ts, o, h, l, c, vol, ...]]; the close is field 4. *)
Definition Candle : Type := list (option Q).

(** An entry of [get_positions()]: [pos] may be absent from the dict. *)
Record Position : Type := {
  pos_instId : string;
  pos_pos : option (option Q);
}.

Inductive Decision : Type := long | short.

(** [config.py]: [InstrumentConfig], [TradingConfig], [AppConfig]. *)
Record InstrumentConfig : Type := {
  inst_id : string;
  leverage : option Z;
  tp_percent : option Q;
  sl_percent : option Q;
  base_notional_usdt : option Q;
  fixed_contracts : option Z;
  max_contracts : option Z;
}.

Record TradingConfig : Type := {
  poll_interval_sec : Z;
  default_leverage : Z;
  default_tp_percent : Q;
  default_sl_percent : Q;
  cfg_base_notional_usdt : Q;
  margin_mode : string;
  dry_run : bool;
  cfg_max_contracts : option Z;
}.

Record AppConfig : Type := {
  trading : TradingConfig;
  instruments : list InstrumentConfig;
}.

(** [trader.py]: [SizePlan]. *)
Record SizePlan : Type := {
  contracts : Z;
  notional : Q;
}.

(** One element of the [data] array of an order response. *)
Record Item : Type := {
  ordId : string;     (* "" when absent *)
  sCode : string;     (* "" when absent *)
  sMsg : string;      (* "" when absent or null *)
}.

(** What [trade.place_order] returns: a dict with [code], [msg] and [data]
    (absent or null [data] is the empty list), or something that is no dict. *)
Inductive ApiResult : Type :=
  | NotDict
  | Dict (code msg : string) (data : list Item).

(** [attachAlgoOrds[0]]; trigger prices are six-decimal texts. *)
Record AlgoOrd : Type := {
  tpTriggerPx : option Q;
  tpTriggerPxType : option string;
  tpOrdPx : option string;
  slTriggerPx : option Q;
  slTriggerPxType : option string;
  slOrdPx : option string;
}.

Definition empty_algo : AlgoOrd :=
  {| tpTriggerPx := None; tpTriggerPxType := None; tpOrdPx := None;
     slTriggerPx := None; slTriggerPxType := None; slOrdPx := None |}.

(** The keyword arguments of [trade.place_order]. *)
Record Params : Type := {
  instId : string;
  tdMode : string;
  side : string;
  ordType : string;
  sz : option Q;
  posSide : option string;
  attachAlgoOrds : option AlgoOrd;
}.

(** ** The outside world *)

(** Reply of the decision service to one [client.post], as far as
    [decide_direction] looks at it. *)
Inductive HttpReply : Type :=
  | PostRaises            (* client.post raised: timeout, connection *)
  | StatusRaises          (* r.raise_for_status() raised: non-2xx *)
  | JsonRaises            (* r.json() raised *)
  | ShapeRaises           (* data["choices"][0]["message"]["content"] raised *)
  | Content (s : string).

Inductive TradeReply : Type :=
  | TradeRaises (msg : string)
  | TradeReturns (r : ApiResult).

(** Answers of the exchange SDK and of the decision service, by call clock.
    [None] stands for a call (or the decoding of its answer) that raised. *)
Record World : Type := {
  account_balance : nat -> option Q;
  market_candles : nat -> option (list Candle);
  account_positions : nat -> option (list Position);
  market_ticker : nat -> option Q;
  account_config : nat -> option string;
  trade_place_order : nat -> TradeReply;
  http_post : nat -> HttpReply;
}.

(** What the process does that can be observed from outside. *)
Inductive Event : Type :=
  | EGetBalance
  | EGetCandles (inst : string) (limit : Z)
  | EGetPositions (inst : option string)
  | EGetTicker (inst : string)
  | EGetAccountConfig
  | ESetLeverage (inst : string) (lever : Z) (mgn : string) (ps : string)
  | ETradePlaceOrder (p : Params)
  | EHttpPost (inst : string)
  | ESleep (sec : Z)
  | ELogPlan (c : Z) (n : Q)
  | ELogClose (inst : string) (open_balance close_balance : Q) (ord : string).

(** Process state: the call clock, the trace, the position-cap cache of the
    [OkxClient] object, and the cursor [idx] of [trade_loop]. *)
Record State : Type := {
  clock : nat;
  trace : list Event;
  cap_cache : gmap (string * Z) Z;
  idx : nat;
}.

Definition set_cap_cache (c : gmap (string * Z) Z) (s : State) : State :=
  {| clock := clock s; trace := trace s; cap_cache := c; idx := idx s |}.

Definition set_idx (i : nat) (s : State) : State :=
  {| clock := clock s; trace := trace s; cap_cache := cap_cache s; idx := i |}.

Definition record_call (e : Event) (s : State) : State :=
  {| clock := S (clock s); trace := trace s ++ [e];
     cap_cache := cap_cache s; idx := idx s |}.

Definition record_log (e : Event) (s : State) : State :=
  {| clock := clock s; trace := trace s ++ [e];
     cap_cache := cap_cache s; idx := idx s |}.

(** ** The monad *)

Definition M (A : Type) : Type := World -> State -> result A * State.

Definition ret {A} (a : A) : M A := fun _ s => (Ok a, s).
Definition raise {A} (e : exn) : M A := fun _ s => (Raise e, s).
Definition running {A} : M A := fun _ s => (Running, s).

Definition bind {A B} (m : M A) (k : A -> M B) : M B :=
  fun w s =>
    match m w s with
    | (Ok a, s') => k a w s'
    | (Raise e, s') => (Raise e, s')
    | (Running, s') => (Running, s')
    end.

Notation "x <- m ;; k" := (bind m (fun x => k))
  (at level 100, m at next level, right associativity).
Notation "m ;;; k" := (bind m (fun _ => k))
  (at level 100, right associativity).

(** [try: m  except <classes accepted by handles>: h]. *)
Definition try_except {A} (m : M A) (handles : exn -> bool) (h : exn -> M A) : M A :=
  fun w s =>
    match m w s with
    | (Raise e, s') => if handles e then h e w s' else (Raise e, s')
    | r => r
    end.

Definition any_exception (_ : exn) : bool := true.
Definition only_NetworkError (e : exn) : bool :=
  match e with NetworkError => true | _ => false end.

Definition lift {A} (r : result A) : M A := fun _ s => (r, s).

(** An outside call: record it, advance the clock, hand back its number. *)
Definition call (e : Event) : M nat := fun _ s => (Ok (clock s), record_call e s).
Definition log (e : Event) : M unit := fun _ s => (Ok tt, record_log e s).
Definition world : M World := fun w s => (Ok w, s).
Definition get_state : M State := fun _ s => (Ok s, s).
Definition modify (f : State -> State) : M unit := fun _ s => (Ok tt, f s).

Definition sleep (sec : Z) : M unit := call (ESleep sec) ;;; ret tt.

(** ** [okx_client.py]: [OkxClient] *)

Local Open Scope string_scope.
Local Open Scope Z_scope.

Definition get_position_mode : M string :=
  n <- call EGetAccountConfig ;;
  w <- world ;;
  match account_config w n with
  | Some pos_mode =>
      if String.eqb pos_mode "net_mode" || String.eqb pos_mode "net" then ret "net"
      else if String.eqb pos_mode "long_short_mode" || String.eqb pos_mode "long_short"
           then ret "long_short"
      else ret "net"
  | None => ret "net"
  end.

Definition get_cached_position_cap (inst : string) (lever : option Z) : M (option Z) :=
  s <- get_state ;;
  match lever with
  | Some l => ret (cap_cache s !! (inst, l))
  | None => ret None
  end.

Definition update_position_cap (inst : string) (lever cap : option Z) : M unit :=
  match lever, cap with
  | Some l, Some c =>
      if negb (String.eqb inst "") && truthyZ l && truthyZ c
      then modify (fun s => set_cap_cache (<[(inst, l) := c]> (cap_cache s)) s)
      else ret tt
  | _, _ => ret tt
  end.

Definition get_usdt_balance : M Q :=
  n <- call EGetBalance ;;
  w <- world ;;
  match account_balance w n with
  | Some b => ret b
  | None => raise NetworkError
  end.

Definition get_candles (inst : string) (limit : Z) : M (list Candle) :=
  n <- call (EGetCandles inst limit) ;;
  w <- world ;;
  match market_candles w n with
  | Some cs => ret cs
  | None => raise NetworkError
  end.

Definition get_positions (inst : option string) : M (list Position) :=
  n <- call (EGetPositions inst) ;;
  w <- world ;;
  match account_positions w n with
  | Some ps => ret ps
  | None => raise NetworkError
  end.

Definition get_last_price (inst : string) : M Q :=
  n <- call (EGetTicker inst) ;;
  w <- world ;;
  match market_ticker w n with
  | Some p => ret p
  | None => raise NetworkError
  end.

(** [set_leverage] swallows every exception of the SDK call. *)
Definition set_leverage (inst : string) (lever : Z) (mgn ps : string) : M unit :=
  call (ESetLeverage inst lever mgn ps) ;;; ret tt.

Definition trade_call (p : Params) : M ApiResult :=
  n <- call (ETradePlaceOrder p) ;;
  w <- world ;;
  match trade_place_order w n with
  | TradeReturns r => ret r
  | TradeRaises msg => raise (SdkError msg)
  end.

(** *** Trigger prices (lines 242-293 of [place_order]) *)

Definition is_long_of (pos_side side : string) : bool :=
  if String.eqb pos_side "long" then true
  else if String.eqb pos_side "short" then false
  else if String.eqb pos_side "net" then String.eqb side "buy"
  else true.

Definition tp_price (last ratio : Q) (is_long : bool) : Q :=
  if is_long then
    let tp_px := (last * (1 + ratio))%Q in
    if Qle_bool tp_px last then (last * (1002 # 1000))%Q else tp_px
  else
    let tp_px := (last * (1 - ratio))%Q in
    if Qle_bool last tp_px then (last * (998 # 1000))%Q else tp_px.

Definition sl_price (last ratio : Q) (is_long : bool) : Q :=
  if is_long then
    let sl_px := (last * (1 - ratio))%Q in
    if Qle_bool last sl_px then (last * (998 # 1000))%Q else sl_px
  else
    let sl_px := (last * (1 + ratio))%Q in
    if Qle_bool sl_px last then (last * (1002 # 1000))%Q else sl_px.

(** *** Reading a rejection *)

Definition first_item (r : ApiResult) : option Item :=
  match r with
  | Dict _ _ (item :: _) => Some item
  | _ => None
  end.

(** Lines 306-316: is this a take-profit direction rejection? *)
Definition is_tp_rejection (r : ApiResult) : bool :=
  match first_item r with
  | Some item =>
      let s_code := sCode item in
      let s_msg := lower (sMsg item) in
      String.eqb s_code "51052" || String.eqb s_code "51051" ||
      (contains "tp price" s_msg && (contains "lower" s_msg || contains "higher" s_msg))
  | None => false
  end.

(** [re.findall(r"([0-9,]+)\(contracts\)", s)[0]]: the first maximal run of
    digits and commas that is directly followed by ["(contracts)"]. [run] is
    the run read so far. *)
Fixpoint first_contracts_figure (s run : string) : option string :=
  match s with
  | EmptyString => None
  | String c s' =>
      if is_digit_or_comma c then first_contracts_figure s' (run ++ String c EmptyString)
      else if negb (String.eqb run "") && String.prefix "(contracts)" s then Some run
      else first_contracts_figure s' ""
  end.

Fixpoint drop_prefix (p s : string) : option string :=
  match p, s with
  | EmptyString, _ => Some s
  | String a p', String b s' => if Ascii.eqb a b then drop_prefix p' s' else None
  | String _ _, EmptyString => None
  end.

Fixpoint after_first (needle hay : string) : option string :=
  match drop_prefix needle hay with
  | Some rest => Some rest
  | None =>
      match hay with
      | EmptyString => None
      | String _ hay' => after_first needle hay'
      end
  end.

Fixpoint from_first_digit (s : string) : option string :=
  match s with
  | EmptyString => None
  | String c s' => if is_digit c then Some s else from_first_digit s'
  end.

Fixpoint take_run (s : string) : string :=
  match s with
  | EmptyString => EmptyString
  | String c s' => if is_digit_or_comma c then String c (take_run s') else EmptyString
  end.

(** [re.search(r"maximum position amount[^0-9]*([0-9,]+)", s, re.IGNORECASE)]
    followed by [int(group.replace(",", ""))]: after the first occurrence of
    the phrase, the run that starts at the first digit. *)
Definition maximum_position_amount (s : string) : option Z :=
  match after_first "maximum position amount" (lower s) with
  | Some tail =>
      match from_first_digit tail with
      | Some t => int_without_commas (take_run t)
      | None => None
      end
  | None => None
  end.

(** Lines 352-368: the cap named by a 51004 message. *)
Definition parse_cap (s_msg : string) : option Z :=
  let cap_value :=
    match first_contracts_figure s_msg "" with
    | Some m => int_without_commas m
    | None => None
    end in
  match cap_value with
  | Some c => Some c
  | None => maximum_position_amount s_msg
  end.

(** [int(float(sz))], [None] when it raises. *)
Definition int_float (sz : option Q) : option Z :=
  match float sz with
  | Ok q => Some (int q)
  | _ => None
  end.

Definition truthy_opt (x : option Z) : bool :=
  match x with Some z => truthyZ z | None => false end.

(** *** [place_order] *)

Definition with_sz (p : Params) (new_sz : Z) : Params :=
  {| instId := instId p; tdMode := tdMode p; side := side p; ordType := ordType p;
     sz := Some (inject_Z new_sz); posSide := posSide p;
     attachAlgoOrds := attachAlgoOrds p |}.

Definition with_tp (p : Params) (a : AlgoOrd) (new_tp : Q) : Params :=
  {| instId := instId p; tdMode := tdMode p; side := side p; ordType := ordType p;
     sz := sz p; posSide := posSide p;
     attachAlgoOrds :=
       Some {| tpTriggerPx := Some (round6 new_tp);
               tpTriggerPxType := tpTriggerPxType a; tpOrdPx := tpOrdPx a;
               slTriggerPx := slTriggerPx a; slTriggerPxType := slTriggerPxType a;
               slOrdPx := slOrdPx a |} |}.

(** Lines 237-295: the [attach_algo] dict built from the last price. *)
Definition build_attach_algo (last : Q) (pos_side side : string)
    (tp_ratio sl_ratio : option Q) (tp_trigger_type sl_trigger_type : string) : AlgoOrd :=
  {| tpTriggerPx :=
       match tp_ratio with
       | Some r => Some (round6 (tp_price last (Qabs r) (is_long_of pos_side side)))
       | None => None
       end;
     tpTriggerPxType := match tp_ratio with Some _ => Some tp_trigger_type | None => None end;
     tpOrdPx := match tp_ratio with Some _ => Some "-1" | None => None end;
     slTriggerPx :=
       match sl_ratio with
       | Some r => Some (round6 (sl_price last (Qabs r) (is_long_of pos_side side)))
       | None => None
       end;
     slTriggerPxType := match sl_ratio with Some _ => Some sl_trigger_type | None => None end;
     slOrdPx := match sl_ratio with Some _ => Some "-1" | None => None end |}.

(** Line 317: [try_retry and attach_algo and "tpTriggerPx" in attach_algo and last]. *)
Definition tp_retry_fires (try_retry : bool) (attach_algo : option AlgoOrd)
    (last : option Q) : option (AlgoOrd * Q * Q) :=
  if try_retry then
    match attach_algo, last with
    | Some a, Some l =>
        match tpTriggerPx a with
        | Some orig_tp => if truthy l then Some (a, orig_tp, l) else None
        | None => None
        end
    | _, _ => None
    end
  else None.

(** Lines 321-329: the flipped take-profit trigger. *)
Definition flipped_tp (orig_tp last : Q) (tp_ratio : option Q) : Q :=
  let ratio :=
    match tp_ratio with
    | Some r => if truthy (Qabs r) then Qabs r else (1 # 100)%Q
    | None => (1 # 100)%Q
    end in
  if Qle_bool last orig_tp
  then (last * (1 - Qmax (1 # 1000) ratio))%Q
  else (last * (1 + Qmax (1 # 1000) ratio))%Q.

(** Lines 392-416: the insufficient-margin rung, then [return result]. *)
Definition margin_rung (params : Params) (sz : option Q) (result : ApiResult) : M ApiResult :=
  let try_retry_margin :=
    match first_item result with
    | Some item => String.eqb (sCode item) "51008"
    | None => false
    end in
  if try_retry_margin then
    match int_float sz with
    | Some cur_sz =>
        if truthyZ cur_sz && (1 <? cur_sz) then
          let new_sz := Z.max 1 (cur_sz / 2) in
          trade_call (with_sz params new_sz)
        else ret result
    | None => ret result
    end
  else ret result.

(** Lines 341-391: the size-cap rung; falls through to the margin rung. *)
Definition cap_rung (inst_id : string) (lever : option Z) (params : Params)
    (sz : option Q) (result : ApiResult) : M ApiResult :=
  let '(try_retry_cap, cap_value) :=
    match first_item result with
    | Some item =>
        if String.eqb (sCode item) "51004" then (true, parse_cap (sMsg item))
        else (false, None)
    | None => (false, None)
    end in
  if try_retry_cap then
    let cur_sz := int_float sz in
    new_sz <-
      (if truthy_opt cap_value && truthy_opt cur_sz then
         update_position_cap inst_id lever cap_value ;;;
         ret (Some (Z.max 1 (Z.min (default 0 cur_sz) (default 0 cap_value))))
       else if truthy_opt cur_sz then ret (Some (Z.max 1 (default 0 cur_sz / 2)))
       else ret None) ;;
    match new_sz with
    | Some n =>
        if truthyZ n && negb (n =? default 0 cur_sz)
        then trade_call (with_sz params n)
        else margin_rung params sz result
    | None => margin_rung params sz result
    end
  else margin_rung params sz result.

(** Lines 301-416: the body of the [try] block, from the first submission to
    the [return] of each rung. *)
Definition retry_ladder (inst_id : string) (lever : option Z) (params : Params)
    (sz tp_ratio : option Q) (attach_algo : option AlgoOrd) (last : option Q)
    : M ApiResult :=
  result <- trade_call params ;;
  let try_retry := is_tp_rejection result in
  match tp_retry_fires try_retry attach_algo last with
  | Some (a, orig_tp, l) =>
      let new_tp := flipped_tp orig_tp l tp_ratio in
      trade_call (with_tp params a new_tp)
  | None => cap_rung inst_id lever params sz result
  end.

Definition place_order (inst_id side td_mode : string) (sz : option Q)
    (ord_type pos_side : string) (tp_ratio sl_ratio : option Q)
    (tp_trigger_type sl_trigger_type : string) (lever : option Z) : M ApiResult :=
  let pos_side_param :=
    if String.eqb pos_side "long" || String.eqb pos_side "short"
    then Some pos_side else None in
  la <-
    match tp_ratio, sl_ratio with
    | None, None => ret (None, None)
    | _, _ =>
        last <- get_last_price inst_id ;;
        ret (Some last,
             Some (build_attach_algo last pos_side side tp_ratio sl_ratio
                     tp_trigger_type sl_trigger_type))
    end ;;
  let '(last, attach_algo) := la in
  let params :=
    {| instId := inst_id; tdMode := td_mode; side := side; ordType := ord_type;
       sz := sz; posSide := pos_side_param; attachAlgoOrds := attach_algo |} in
  try_except
    (retry_ladder inst_id lever params sz tp_ratio attach_algo last)
    any_exception
    (fun e => ret (Dict "-1" (str_exn e) [])).

(** ** [ai_client.py] *)

(** [[float(c[4]) for c in candles]], stopping at the first exception. *)
Fixpoint closes_of (candles : list Candle) : result (list Q) :=
  match candles with
  | [] => Ok []
  | c :: rest =>
      match nth_error c 4 with
      | None => Raise LookupError
      | Some field =>
          match float field with
          | Ok q =>
              match closes_of rest with
              | Ok qs => Ok (q :: qs)
              | r => r
              end
          | Raise e => Raise e
          | Running => Running
          end
      end
  end.

(** The [try] block shared by both clients, on [candles[:window]]:
    ["long"] when [len(closes) >= 2 and closes[-1] > closes[0]], and
    ["short"] in every other case, exceptions included. *)
Definition momentum (window : nat) (candles : list Candle) : Decision :=
  match closes_of (firstn window candles) with
  | Ok closes =>
      if (2 <=? length closes)%nat && Qltb (hd 0%Q closes) (List.last closes 0%Q)
      then long else short
  | _ => short
  end.

Inductive AIClient : Type := OpenAICompatClient | HeuristicAIClient.

Module Heuristic.
Definition decide_direction (inst : string) (candles : list Candle) : M Decision :=
  ret (momentum 30 candles).
End Heuristic.

Module OpenAICompat.
Definition decide_direction (inst : string) (candles : list Candle) : M Decision :=
  n <- call (EHttpPost inst) ;;
  w <- world ;;
  match http_post w n with
  | PostRaises => raise TransportError
  | StatusRaises => raise HTTPStatusError
  | JsonRaises => raise JSONDecodeError
  | ShapeRaises => raise LookupError
  | Content s =>
      let content := lower (strip s) in
      if contains "long" content && negb (contains "short" content) then ret long
      else if contains "short" content && negb (contains "long" content) then ret short
      else ret (momentum 10 candles)
  end.
End OpenAICompat.

Definition decide_direction (ai : AIClient) (inst : string) (candles : list Candle)
    : M Decision :=
  match ai with
  | OpenAICompatClient => OpenAICompat.decide_direction inst candles
  | HeuristicAIClient => Heuristic.decide_direction inst candles
  end.

(** ** [trader.py] *)

(** Python's [/] on floats. *)
Definition div (a b : Q) : M Q :=
  if Qeq_bool b 0 then raise ZeroDivisionError else ret (a / b)%Q.

Definition plan_size_from_notional (inst : string) (notional_usdt : Q) (leverage : Z)
    : M SizePlan :=
  p <- get_last_price inst ;;
  let last := if truthy p then p else 1%Q in
  let effective := (notional_usdt * inject_Z leverage)%Q in
  coin_qty <- div effective last ;;
  let contracts := Z.max 1 (int coin_qty) in
  next_amt <- div (inject_Z (contracts + 1) * last)%Q (inject_Z leverage) ;;
  let contracts := if Qle_bool next_amt notional_usdt then contracts + 1 else contracts in
  ret {| contracts := contracts; notional := notional_usdt |}.

(** [[c for c in [...] if c]]. *)
Fixpoint truthy_candidates (cs : list (option Z)) : list Z :=
  match cs with
  | [] => []
  | Some c :: rest => if truthyZ c then c :: truthy_candidates rest else truthy_candidates rest
  | None :: rest => truthy_candidates rest
  end.

Definition min_of (x : Z) (xs : list Z) : Z := fold_left Z.min xs x.

(** Lines 125-141 of [open_position]: the fixed size or the tightest cap. *)
Definition apply_caps (cfg : AppConfig) (inst : InstrumentConfig) (max_cap : option Z)
    (planned : Z) : Z :=
  if truthy_opt (fixed_contracts inst) then default 0 (fixed_contracts inst)
  else
    let inst_max := max_contracts inst in
    let global_max := cfg_max_contracts (trading cfg) in
    match truthy_candidates [inst_max; global_max; max_cap] with
    | c :: cs =>
        let hard_cap := min_of c cs in
        if hard_cap <? planned then hard_cap else planned
    | [] => planned
    end.

Definition truthy_or {A} (t : A -> bool) (x : option A) (d : A) : A :=
  match x with
  | Some a => if t a then a else d
  | None => d
  end.

(** Lines 182-189: the order id of a response, if it reports success. *)
Definition order_id_of (r : ApiResult) : option string :=
  match r with
  | Dict code _ (item :: _) =>
      if String.eqb code "0" && negb (String.eqb (ordId item) "") then Some (ordId item)
      else None
  | _ => None
  end.

Definition open_position (ai : AIClient) (cfg : AppConfig) (inst : InstrumentConfig)
    (dry_run : bool) (candles_override : list Candle) : M (option string) :=
  candles <-
    match candles_override with
    | [] => get_candles (inst_id inst) 60
    | _ => ret candles_override
    end ;;
  direction <- decide_direction ai (inst_id inst) candles ;;
  acc_pos_mode <- get_position_mode ;;
  let pos_side :=
    if String.eqb acc_pos_mode "net" then "net"
    else match direction with long => "long" | short => "short" end in
  let side := match direction with long => "buy" | short => "sell" end in
  let leverage := truthy_or truthyZ (leverage inst) (default_leverage (trading cfg)) in
  let tp := default (default_tp_percent (trading cfg)) (tp_percent inst) in
  let sl := default (default_sl_percent (trading cfg)) (sl_percent inst) in
  let base_notional :=
    truthy_or truthy (base_notional_usdt inst) (cfg_base_notional_usdt (trading cfg)) in
  balance <- get_usdt_balance ;;
  if Qle_bool balance 0 then ret None
  else
    let notional' := Qmin balance base_notional in
    sz_plan <- plan_size_from_notional (inst_id inst) notional' leverage ;;
    max_cap <- get_cached_position_cap (inst_id inst) (Some leverage) ;;
    let contracts := apply_caps cfg inst max_cap (contracts sz_plan) in
    log (ELogPlan contracts (notional sz_plan)) ;;;
    if dry_run then ret (Some "dry-run-order-id")
    else
      set_leverage (inst_id inst) leverage (margin_mode (trading cfg)) pos_side ;;;
      r <- place_order (inst_id inst) side (margin_mode (trading cfg))
             (Some (inject_Z contracts)) "market" pos_side (Some tp) (Some sl)
             "last" "last" (Some leverage) ;;
      ret (order_id_of r).

(** [any(abs(float(p.get("pos", 0))) > 0 for p in positions)]. *)
Fixpoint any_open (positions : list Position) : result bool :=
  match positions with
  | [] => Ok false
  | p :: rest =>
      match float (default (Some 0%Q) (pos_pos p)) with
      | Ok q => if Qltb 0 (Qabs q) then Ok true else any_open rest
      | Raise e => Raise e
      | Running => Running
      end
  end.

(** The [while True] of [poll_until_no_positions], at most [fuel] rounds. *)
Fixpoint poll_until_no_positions (fuel : nat) (poll_sec : Z) : M unit :=
  match fuel with
  | O => running
  | S fuel' =>
      positions <- get_positions None ;;
      open <- lift (any_open positions) ;;
      if open then sleep poll_sec ;;; poll_until_no_positions fuel' poll_sec
      else ret tt
  end.

Definition log_close_order (inst : InstrumentConfig) (open_balance : Q) (ord : string)
    : M unit :=
  close_balance <- get_usdt_balance ;;
  (* get_position_summary: every exception is swallowed *)
  try_except (get_positions (Some (inst_id inst)) ;;; ret tt) any_exception
    (fun _ => ret tt) ;;;
  log (ELogClose (inst_id inst) open_balance close_balance ord).

(** Lines 267-294: the rest of a pass once the instrument is chosen. *)
Definition open_and_wait (fuel : nat) (ai : AIClient) (cfg : AppConfig)
    (inst : InstrumentConfig) (dry_run : bool) (poll_sec_local : Z) : M unit :=
  candles_1h <- get_candles (inst_id inst) 60 ;;
  open_balance <- get_usdt_balance ;;
  ord_id <- open_position ai cfg inst dry_run candles_1h ;;
  match ord_id with
  | None => sleep poll_sec_local
  | Some ord =>
      if dry_run then
        sleep poll_sec_local ;;;
        log_close_order inst open_balance ord
      else
        poll_until_no_positions fuel poll_sec_local ;;;
        log_close_order inst open_balance ord
  end.

(** One pass through the body of [while True] in [trade_loop]. *)
Definition cycle (fuel : nat) (ai : AIClient) (cfg : AppConfig) : M unit :=
  let poll_sec := poll_interval_sec (trading cfg) in
  try_except
    (let dry_run := dry_run (trading cfg) in
     let poll_sec_local := poll_sec in
     positions <- get_positions None ;;
     open <- lift (any_open positions) ;;
     if open then sleep poll_sec_local
     else
       s <- get_state ;;
       match nth_error (instruments cfg) (idx s mod length (instruments cfg)) with
       | None => raise LookupError
       | Some inst =>
           modify (set_idx (idx s + 1)) ;;;
           open_and_wait fuel ai cfg inst dry_run poll_sec_local
       end)
    only_NetworkError
    (fun _ => sleep poll_sec).

Fixpoint cycles (n fuel : nat) (ai : AIClient) (cfg : AppConfig) : M unit :=
  match n with
  | O => running
  | S n' => cycle fuel ai cfg ;;; cycles n' fuel ai cfg
  end.

(** [trade_loop], cut off after [n] passes ([Running]: still looping). *)
Definition trade_loop (n fuel : nat) (ai : AIClient) (cfg : AppConfig) : M unit :=
  match instruments cfg with
  | [] => ret tt
  | _ => modify (set_idx 0) ;;; cycles n fuel ai cfg
  end.

(** ** [okx_client.py]: [has_open_position] *)

(** Lines 186-197: every exception, the one of an unreadable [pos]
    included, is re-raised as [NetworkError]. *)
Definition has_open_position (inst : string) : M bool :=
  try_except
    (pos <- get_positions (Some inst) ;;
     lift (any_open pos))
    any_exception
    (fun _ => raise NetworkError).

(** ** Vocabulary of the statements *)

(** The price the planner divides by ([... or 1.0]). *)
Definition divisor_of (p : Q) : Q := if truthy p then p else 1%Q.

(** The arithmetic of [plan_size_from_notional] once the price is read. *)
Definition planned_contracts (last notional_usdt : Q) (leverage : Z) : Z :=
  let c := Z.max 1 (int (notional_usdt * inject_Z leverage / last)) in
  if Qle_bool (inject_Z (c + 1) * last / inject_Z leverage) notional_usdt
  then c + 1 else c.

(** The same arithmetic over any multiplication, division and truncation, to
    tell what the planner owes to exact arithmetic and what it does not. *)
Definition planned_contracts_with (mul dv : Q -> Q -> Q) (tr : Q -> Z)
    (last notional_usdt : Q) (leverage : Z) : Z :=
  let c := Z.max 1 (tr (dv (mul notional_usdt (inject_Z leverage)) last)) in
  if Qle_bool (dv (mul (inject_Z (c + 1)) last) (inject_Z leverage)) notional_usdt
  then c + 1 else c.

(** A world in which every call succeeds with a fixed answer, and the
    process state at start-up. *)
Definition calm_world (price : Q) : World :=
  {| account_balance := fun _ => Some 1000%Q;
     market_candles := fun _ => Some [];
     account_positions := fun _ => Some [];
     market_ticker := fun _ => Some price;
     account_config := fun _ => Some "net_mode";
     trade_place_order := fun _ => TradeReturns (Dict "0" "" []);
     http_post := fun _ => Content "long" |}.

Definition start : State :=
  {| clock := 0; trace := []; cap_cache := ∅; idx := 0 |}.

(** What the caller of [trade_call] gets from a reply, and what
    [place_order] returns when that reply answers its last submission (the
    [except] branch turns an exception into an error dict). *)
Definition reply_result (reply : TradeReply) : result ApiResult :=
  match reply with
  | TradeReturns r => Ok r
  | TradeRaises msg => Raise (SdkError msg)
  end.

Definition answer_of (reply : TradeReply) : ApiResult :=
  match reply with
  | TradeReturns r => r
  | TradeRaises msg => Dict "-1" msg []
  end.

(** The order submissions in a trace, oldest first. *)
Fixpoint submissions (t : list Event) : list Params :=
  match t with
  | [] => []
  | ETradePlaceOrder p :: rest => p :: submissions rest
  | _ :: rest => submissions rest
  end.

(** A computation keeps the relation [R] between the state it starts in and
    the state it ends in, whatever the world answers. *)
Definition keeps {A} (R : State -> State -> Prop) (m : M A) : Prop :=
  forall w s, R s (snd (m w s)).

Definition same_idx (s s' : State) : Prop := idx s' = idx s.

(** Log lines, as opposed to calls that leave the process. *)
Definition is_log (e : Event) : bool :=
  match e with ELogPlan _ _ | ELogClose _ _ _ _ => true | _ => false end.

(** [s'] extends the trace of [s] by events that all satisfy [ok]. *)
Definition extends_by (ok : Event -> bool) (s s' : State) : Prop :=
  exists evs, trace s' = (trace s ++ evs)%list /\ forallb ok evs = true.

Definition same_cache (s s' : State) : Prop := cap_cache s' = cap_cache s.

Definition plan_within (cap : Z) (e : Event) : bool :=
  match e with ELogPlan c _ => c <=? cap | _ => true end.

(** A position entry with a non-zero magnitude, and one whose [pos] is text
    that [float()] accepts (or is absent). *)
Definition has_position (p : Position) : Prop :=
  exists q, pos_pos p = Some (Some q) /\ ~ (q == 0)%Q.

Definition pos_parses (p : Position) : Prop := pos_pos p <> Some None.

(** Sample configuration: one instrument, defaults of [config.py], live mode. *)
Definition btc : InstrumentConfig :=
  {| inst_id := "BTC-USDT-SWAP"; leverage := None; tp_percent := None;
     sl_percent := None; base_notional_usdt := None; fixed_contracts := None;
     max_contracts := None |}.

Definition live_cfg : AppConfig :=
  {| trading :=
       {| poll_interval_sec := 30; default_leverage := 100;
          default_tp_percent := 2 # 100; default_sl_percent := 1 # 100;
          cfg_base_notional_usdt := 10; margin_mode := "cross"; dry_run := false;
          cfg_max_contracts := None |};
     instruments := [btc] |}.

(** A world as [calm_world], with one open position on the account. *)
Definition busy_world : World :=
  {| account_balance := fun _ => Some 1000%Q;
     market_candles := fun _ => Some [];
     account_positions := fun _ =>
       Some [{| pos_instId := "ETH-USDT-SWAP"; pos_pos := Some (Some 3%Q) |}];
     market_ticker := fun _ => Some 30000%Q;
     account_config := fun _ => Some "net_mode";
     trade_place_order := fun _ => TradeReturns (Dict "0" "" []);
     http_post := fun _ => Content "long" |}.

(** A candle row whose close is [c]. *)
Definition row (c : Q) : Candle :=
  [Some 0%Q; Some c; Some c; Some c; Some c; Some 0%Q; Some 0%Q; Some 0%Q; Some 1%Q].

(** A world as [calm_world], whose decision service never answers in time. *)
Definition timeout_world : World :=
  {| account_balance := fun _ => Some 1000%Q;
     market_candles := fun _ => Some [row 100; row 101; row 102];
     account_positions := fun _ => Some [];
     market_ticker := fun _ => Some 30000%Q;
     account_config := fun _ => Some "net_mode";
     trade_place_order := fun _ => TradeReturns (Dict "0" "" []);
     http_post := fun _ => PostRaises |}.

(** The clock at which [place_order] makes its first submission: the last
    price is fetched first when a ratio is given. *)
Definition first_submission_clock (tp_ratio sl_ratio : option Q) (s : State) : nat :=
  match tp_ratio, sl_ratio with
  | None, None => clock s
  | _, _ => S (clock s)
  end.

(** The keyword arguments of the first submission. *)
Definition params_of (inst_id side td_mode : string) (sz : option Q)
    (ord_type pos_side : string) (attach_algo : option AlgoOrd) : Params :=
  {| instId := inst_id; tdMode := td_mode; side := side; ordType := ord_type;
     sz := sz;
     posSide := if String.eqb pos_side "long" || String.eqb pos_side "short"
                then Some pos_side else None;
     attachAlgoOrds := attach_algo |}.

(** The [except] branch of [place_order]. *)
Definition error_dict (e : exn) : M ApiResult := ret (Dict "-1" (str_exn e) []).

(** How a rung of the ladder, entered in state [s] with the rejected
    [result], can end: it hands [result] back without calling the exchange,
    or it makes one submission and hands back what that one gets. *)
Definition rung_outcome (result : ApiResult) (w : World) (s : State)
    (out : Py.result ApiResult * State) : Prop :=
  (fst out = Ok result /\ trace (snd out) = trace s /\ clock (snd out) = clock s) \/
  (exists p2,
      fst out = reply_result (trade_place_order w (clock s)) /\
      trace (snd out) = (trace s ++ [ETradePlaceOrder p2])%list).

(** How the whole ladder can end: after one submission or after two, in both
    cases with what the last submission got. *)
Definition ladder_outcome (params : Params) (w : World) (s : State)
    (out : Py.result ApiResult * State) : Prop :=
  (fst out = reply_result (trade_place_order w (clock s)) /\
   trace (snd out) = (trace s ++ [ETradePlaceOrder params])%list) \/
  (exists p2,
      fst out = reply_result (trade_place_order w (S (clock s))) /\
      trace (snd out) = (trace s ++ [ETradePlaceOrder params; ETradePlaceOrder p2])%list).

Definition not_log (e : Event) : bool := negb (is_log e).

(** [s'] differs from [s] by outside calls only. *)
Definition unlogged (s s' : State) : Prop := extends_by not_log s s'.

(** As [unlogged], and the position-cap cache is untouched. *)
Definition quiet (s s' : State) : Prop := same_cache s s' /\ unlogged s s'.

(** The contract counts of the plans logged in a trace, oldest first. *)
Fixpoint plans (t : list Event) : list Z :=
  match t with
  | [] => []
  | ELogPlan c _ :: rest => c :: plans rest
  | _ :: rest => plans rest
  end.

(** A world whose exchange rejects every order with the given code and
    message; the last price is 30. *)
Definition rejecting_world (s_code s_msg : string) : World :=
  {| account_balance := fun _ => Some 1000%Q;
     market_candles := fun _ => Some [row 31; row 30];
     account_positions := fun _ => Some [];
     market_ticker := fun _ => Some 30%Q;
     account_config := fun _ => Some "net_mode";
     trade_place_order := fun _ =>
       TradeReturns (Dict "1" "" [{| ordId := ""; sCode := s_code; sMsg := s_msg |}]);
     http_post := fun _ => Content "long" |}.

Definition tp_rejection_msg : string :=
  "Your TP price should be higher than the primary order price.".

Definition cap_msg : string :=
  "Order failed. The maximum position amount is 1,500(contracts) at the current leverage.".

Definition two_figures_msg : string :=
  "Order amount 2,000(contracts) exceeds the maximum position amount 1,500(contracts).".

Definition doge : InstrumentConfig :=
  {| inst_id := "DOGE-USDT-SWAP"; leverage := None; tp_percent := None;
     sl_percent := None; base_notional_usdt := None; fixed_contracts := None;
     max_contracts := None |}.

(** A dry-run configuration that commits 1000 USDT at 100x. *)
Definition big_cfg : AppConfig :=
  {| trading :=
       {| poll_interval_sec := 30; default_leverage := 100;
          default_tp_percent := 2 # 100; default_sl_percent := 1 # 100;
          cfg_base_notional_usdt := 1000; margin_mode := "cross"; dry_run := true;
          cfg_max_contracts := None |};
     instruments := [doge] |}.

(** What a [place_order] for [inst] at [lever] may do to the cache between
    [s] and [s']: nothing, or write a positive cap at that very pair. *)
Definition cache_step (inst : string) (lever : option Z) (s s' : State) : Prop :=
  cap_cache s' = cap_cache s \/
  exists l c,
    lever = Some l /\ inst <> "" /\ l <> 0 /\ 0 < c /\
    cap_cache s' = <[(inst, l) := c]> (cap_cache s).

(** Every cap in the cache is positive. *)
Definition caps_positive (s : State) : Prop :=
  forall k v, cap_cache s !! k = Some v -> 0 < v.

(** The last price could be read, if [place_order] had to read it. *)
Definition price_is_read (tp_ratio sl_ratio : option Q) (w : World) (s : State) : Prop :=
  first_submission_clock tp_ratio sl_ratio s = S (clock s) ->
  exists p, market_ticker w (clock s) = Some p.

(** A world whose exchange fills every order under the id 12345. *)
Definition filling_world : World :=
  {| account_balance := fun _ => Some 1000%Q;
     market_candles := fun _ => Some [row 31; row 30];
     account_positions := fun _ => Some [];
     market_ticker := fun _ => Some 30%Q;
     account_config := fun _ => Some "long_short_mode";
     trade_place_order := fun _ =>
       TradeReturns (Dict "0" "" [{| ordId := "12345"; sCode := "0"; sMsg := "" |}]);
     http_post := fun _ => Content "short" |}.

(** [p] is a resubmission of [p0] as [place_order] makes them: the same
    order with a new take-profit trigger, or the same order with a new size
    [n], an integer between 1 and the integer part of the requested size (or
    1 when that is smaller). *)
Definition retry_of (p0 p : Params) (requested : option Q) : Prop :=
  (exists a new_tp, attachAlgoOrds p0 = Some a /\ p = with_tp p0 a new_tp) \/
  (exists n cur,
      int_float requested = Some cur /\ 1 <= n <= Z.max 1 cur /\ p = with_sz p0 n).

(** Calls that act on the account: setting the leverage and placing an
    order. *)
Definition is_order (e : Event) : bool :=
  match e with ETradePlaceOrder _ | ESetLeverage _ _ _ _ => true | _ => false end.

Definition not_order (e : Event) : bool := negb (is_order e).

(** [s'] differs from [s] by reads, sleeps and log lines only: no order
    call, and the same cache. *)
Definition reads_only (s s' : State) : Prop :=
  same_cache s s' /\ extends_by not_order s s'.

(** The account shows a position, or shows none, at call clock [n]. *)
Definition open_at (w : World) (n : nat) : Prop :=
  exists ps, account_positions w n = Some ps /\ any_open ps = Ok true.

Definition flat_at (w : World) (n : nat) : Prop :=
  exists ps, account_positions w n = Some ps /\ any_open ps = Ok false.

(** The calls of a wait that finds the account open [k] times and then
    flat. *)
Fixpoint polling (k : nat) (poll_sec : Z) : list Event :=
  match k with
  | O => [EGetPositions None]
  | S k' => EGetPositions None :: ESleep poll_sec :: polling k' poll_sec
  end.

(** A position entry without magnitude: [pos] absent, or a number equal to
    zero. *)
Definition is_flat (p : Position) : Prop :=
  pos_pos p = None \/ exists q, pos_pos p = Some (Some q) /\ (q == 0)%Q.

Definition plan_is (c : Z) (e : Event) : bool :=
  match e with ELogPlan c' _ => c' =? c | _ => true end.

(** An instrument that fixes its contract count at 7. *)
Definition fixed7 : InstrumentConfig :=
  {| inst_id := "DOGE-USDT-SWAP"; leverage := None; tp_percent := None;
     sl_percent := None; base_notional_usdt := None; fixed_contracts := Some 7;
     max_contracts := Some 3 |}.

Definition is_read (e : Event) : bool := not_order e && not_log e.

(** [s'] differs from [s] by reads and sleeps only: no order call, no log
    line, and the same cache. *)
Definition silent (s s' : State) : Prop :=
  same_cache s s' /\ extends_by is_read s s'.

(** A world as [calm_world] whose account is empty. *)
Definition broke_world : World :=
  {| account_balance := fun _ => Some 0%Q;
     market_candles := fun _ => Some [row 31; row 30];
     account_positions := fun _ => Some [];
     market_ticker := fun _ => Some 30%Q;
     account_config := fun _ => Some "net_mode";
     trade_place_order := fun _ => TradeReturns (Dict "0" "" []);
     http_post := fun _ => Content "long" |}.

(** The side of an order agrees with its position side: buy with long, sell
    with short, or no position side at all (net mode). *)
Definition side_agrees (p : Params) : Prop :=
  (side p = "buy" /\ (posSide p = None \/ posSide p = Some "long")) \/
  (side p = "sell" /\ (posSide p = None \/ posSide p = Some "short")).

(** [s'] extends the trace of [s], and every order submitted in between
    satisfies [P]. *)
Definition orders_satisfy (P : Params -> Prop) (s s' : State) : Prop :=
  exists evs, trace s' = (trace s ++ evs)%list /\ Forall P (submissions evs).

(** The close of a candle, when its fifth field exists and is a number. *)
Definition close_of (c : Candle) : option Q :=
  match nth_error c 4 with
  | Some (Some q) => Some q
  | _ => None
  end.

Definition readable (c : Candle) : Prop := close_of c <> None.

Definition all_chars (P : ascii -> bool) (s : string) : bool :=
  forallb P (list_ascii_of_string s).

(** [re.findall(r"([0-9,]+)\(contracts\)", s)]: every figure of the message
    that is directly followed by ["(contracts)"], in order. [run] is the run
    read so far. *)
Fixpoint contracts_figures (s run : string) : list string :=
  match s with
  | EmptyString => []
  | String c s' =>
      if is_digit_or_comma c
      then contracts_figures s' (run ++ String c EmptyString)%string
      else if negb (String.eqb run "") && String.prefix "(contracts)" s
           then run :: contracts_figures s' ""
           else contracts_figures s' ""
  end.

(** A 51004 message whose figure is 11,500. *)
Definition longer_figure_msg : string :=
  "Order failed. The maximum position amount is 11,500(contracts) at the current leverage.".

(** An account that shows a position at its first two queries of a wait
    (calls 0 and 2) and none from call 4 on. *)
Definition closing_world : World :=
  {| account_balance := fun _ => Some 1000%Q;
     market_candles := fun _ => Some [];
     account_positions := fun n =>
       if (n <? 4)%nat
       then Some [{| pos_instId := "DOGE-USDT-SWAP"; pos_pos := Some (Some 5%Q) |}]
       else Some [];
     market_ticker := fun _ => Some 30%Q;
     account_config := fun _ => Some "net_mode";
     trade_place_order := fun _ => TradeReturns (Dict "0" "" []);
     http_post := fun _ => Content "long" |}.

(** Unfolding of the monad's plumbing. *)
Ltac mrun :=
  cbv beta iota zeta delta
    [bind call world ret raise lift log get_state modify try_except running sleep].

(** * Properties *)

(** ** Arithmetic of the model *)

Lemma Qltb_lt a b : Qltb a b = true <-> (a < b)%Q.
Proof.
  unfold Qltb. rewrite negb_true_iff. split.
  - intros H. apply Qnot_le_lt. intros Hle. apply Qle_bool_iff in Hle. congruence.
  - intros H. apply not_true_is_false. intros Hle. apply Qle_bool_iff in Hle. lra.
Qed.

Lemma Qltb_ge a b : Qltb a b = false <-> (b <= a)%Q.
Proof.
  unfold Qltb. rewrite negb_false_iff. apply Qle_bool_iff.
Qed.

Lemma Qle_bool_false a b : Qle_bool a b = false <-> (b < a)%Q.
Proof.
  rewrite <- Qltb_lt. unfold Qltb. destruct (Qle_bool a b); simpl; intuition congruence.
Qed.

Lemma truthy_false q : truthy q = false <-> (q == 0)%Q.
Proof.
  unfold truthy. rewrite negb_false_iff. apply Qeq_bool_iff.
Qed.

Lemma truthy_true q : truthy q = true <-> ~ (q == 0)%Q.
Proof.
  unfold truthy. rewrite negb_true_iff. split.
  - intros H E. apply Qeq_bool_iff in E. congruence.
  - intros H. apply not_true_is_false. intros E. apply Qeq_bool_iff in E. auto.
Qed.

(** [int] is monotone: truncation never reverses an order. *)
Lemma int_mono (a b : Q) : (a <= b)%Q -> int a <= int b.
Proof.
  destruct a as [an ad], b as [bn bd]. unfold Qle, int. simpl. intros H.
  rewrite <- (Z.quot_mul_cancel_r an (Zpos ad) (Zpos bd)) by lia.
  rewrite <- (Z.quot_mul_cancel_r bn (Zpos bd) (Zpos ad)) by lia.
  rewrite (Z.mul_comm (Zpos bd) (Zpos ad)).
  apply Z.quot_le_mono; lia.
Qed.

Lemma Qdiv_le_num (a b c : Q) : (0 < c)%Q -> (a <= b)%Q -> (a / c <= b / c)%Q.
Proof.
  intros Hc Hab. unfold Qdiv. apply Qmult_le_compat_r; [assumption|].
  apply Qlt_le_weak. apply Qinv_lt_0_compat. assumption.
Qed.

Lemma Qdiv_le_den (a c d : Q) :
  (0 <= a)%Q -> (0 < c)%Q -> (c <= d)%Q -> (a / d <= a / c)%Q.
Proof.
  intros Ha Hc Hcd.
  assert (Hd : (0 < d)%Q) by lra.
  apply Qle_shift_div_r; [assumption|].
  assert (E : (a / c * d == a * (d / c))%Q) by (field; lra).
  rewrite E. clear E.
  assert (Hx : (1 <= d / c)%Q) by (apply Qle_shift_div_l; lra).
  set (x := (d / c)%Q) in *.
  pose proof (Qmult_le_0_compat a (x - 1) Ha ltac:(lra)). lra.
Qed.

Lemma inject_Z_pos (z : Z) : 0 < z -> (0 < inject_Z z)%Q.
Proof.
  intros H. change 0%Q with (inject_Z 0). rewrite <- Zlt_Qlt. assumption.
Qed.

Lemma inject_Z_nonzero (z : Z) : z <> 0 -> Qeq_bool (inject_Z z) 0 = false.
Proof.
  intros H. apply not_true_is_false. intros E. apply Qeq_bool_iff in E.
  unfold Qeq in E. simpl in E. lia.
Qed.

(** ** The size planner *)

Lemma divisor_of_nonzero p : Qeq_bool (divisor_of p) 0 = false.
Proof.
  unfold divisor_of. destruct (truthy p) eqn:E.
  - unfold truthy in E. apply negb_true_iff in E. exact E.
  - reflexivity.
Qed.

Lemma plan_size_run inst N L w s p :
  market_ticker w (clock s) = Some p ->
  L <> 0 ->
  plan_size_from_notional inst N L w s =
    (Ok {| contracts := planned_contracts (divisor_of p) N L; notional := N |},
     record_call (EGetTicker inst) s).
Proof.
  intros Hp HL.
  unfold plan_size_from_notional, get_last_price, div. mrun.
  rewrite Hp. fold (divisor_of p).
  rewrite divisor_of_nonzero. mrun.
  rewrite (inject_Z_nonzero L HL). reflexivity.
Qed.

Lemma planned_contracts_ge_1 last N L : 1 <= planned_contracts last N L.
Proof.
  unfold planned_contracts.
  destruct (Qle_bool _ _); lia.
Qed.

(** Whatever its inputs, a plan that [plan_size_from_notional] returns never
    has a zero or negative contract count. *)
Lemma plan_size_from_notional_never_below_one inst N L w s plan s' :
  plan_size_from_notional inst N L w s = (Ok plan, s') -> 1 <= contracts plan.
Proof.
  unfold plan_size_from_notional, get_last_price, div. mrun.
  destruct (market_ticker w (clock s)) as [p|]; [|discriminate].
  destruct (Qeq_bool (if truthy p then p else 1%Q) 0); [discriminate|].
  destruct (Qeq_bool (inject_Z L) 0); [discriminate|].
  intros H. injection H as <- _. simpl.
  destruct (Qle_bool _ _); lia.
Qed.

(** Monotonicity does not depend on the arithmetic being exact: it holds for
    any multiplication, division and truncation that are monotone where
    rounding to nearest is. *)
Section Rounded.
Variables (mul dv : Q -> Q -> Q) (tr : Q -> Z).
Hypothesis mul_mono_l : forall a b c, (0 <= c)%Q -> (a <= b)%Q -> (mul a c <= mul b c)%Q.
Hypothesis mul_mono_r : forall a c d, (0 <= a)%Q -> (c <= d)%Q -> (mul a c <= mul a d)%Q.
Hypothesis mul_nonneg : forall a b, (0 <= a)%Q -> (0 <= b)%Q -> (0 <= mul a b)%Q.
Hypothesis dv_mono_num : forall a b c, (0 < c)%Q -> (a <= b)%Q -> (dv a c <= dv b c)%Q.
Hypothesis dv_anti_den :
  forall a c d, (0 <= a)%Q -> (0 < c)%Q -> (c <= d)%Q -> (dv a d <= dv a c)%Q.
Hypothesis tr_mono : forall a b, (a <= b)%Q -> tr a <= tr b.

Lemma planned_contracts_with_mono (P N N' : Q) (L L' : Z) :
  (0 < P)%Q -> (0 < N)%Q -> (N <= N')%Q -> 1 <= L -> L <= L' ->
  planned_contracts_with mul dv tr P N L <= planned_contracts_with mul dv tr P N' L'.
Proof.
  intros HP HN HNN HL HLL.
  assert (HLq : (0 < inject_Z L)%Q) by (apply inject_Z_pos; lia).
  assert (HLLq : (inject_Z L <= inject_Z L')%Q) by (rewrite <- Zle_Qle; assumption).
  assert (Hq : tr (dv (mul N (inject_Z L)) P) <= tr (dv (mul N' (inject_Z L')) P)).
  { apply tr_mono, dv_mono_num; [assumption|].
    apply Qle_trans with (mul N (inject_Z L')).
    - apply mul_mono_r; lra.
    - apply mul_mono_l; lra. }
  unfold planned_contracts_with.
  set (c := Z.max 1 (tr (dv (mul N (inject_Z L)) P))).
  set (c' := Z.max 1 (tr (dv (mul N' (inject_Z L')) P))).
  assert (Hc : c <= c') by (unfold c, c'; lia).
  assert (Hc1 : 1 <= c) by (unfold c; lia).
  destruct (Qle_bool (dv (mul (inject_Z (c + 1)) P) (inject_Z L)) N) eqn:B;
    destruct (Qle_bool (dv (mul (inject_Z (c' + 1)) P) (inject_Z L')) N') eqn:B';
    try lia.
  destruct (Z.eq_dec c c') as [E|E]; [|lia].
  exfalso. rewrite <- E in B'.
  apply Qle_bool_iff in B. apply Qle_bool_false in B'.
  assert (Hnum : (0 <= mul (inject_Z (c + 1)) P)%Q).
  { apply mul_nonneg; [|lra]. apply Qlt_le_weak, inject_Z_pos. lia. }
  pose proof (dv_anti_den _ _ _ Hnum HLq HLLq). lra.
Qed.
End Rounded.

Lemma planned_contracts_exact last N L :
  planned_contracts last N L = planned_contracts_with Qmult Qdiv int last N L.
Proof. reflexivity. Qed.

Lemma planned_contracts_mono (P N N' : Q) (L L' : Z) :
  (0 < P)%Q -> (0 < N)%Q -> (N <= N')%Q -> 1 <= L -> L <= L' ->
  planned_contracts P N L <= planned_contracts P N' L'.
Proof.
  rewrite !planned_contracts_exact.
  apply planned_contracts_with_mono.
  - intros a b c Hc Hab. apply Qmult_le_compat_r; assumption.
  - intros a c d Ha Hcd. rewrite !(Qmult_comm a). apply Qmult_le_compat_r; assumption.
  - intros a b. apply Qmult_le_0_compat.
  - apply Qdiv_le_num.
  - apply Qdiv_le_den.
  - apply int_mono.
Qed.

(** C6. For every notional [N > 0], leverage [L >= 1] and price [P > 0],
    [plan_size_from_notional] returns a [SizePlan] (it raises nothing) whose
    [contracts] is at least 1. *)
Theorem plan_size_from_notional_at_least_one
    (inst : string) (w : World) (s : State) (P N : Q) (L : Z) :
  market_ticker w (clock s) = Some P ->
  (0 < N)%Q -> 1 <= L -> (0 < P)%Q ->
  exists plan s',
    plan_size_from_notional inst N L w s = (Ok plan, s') /\ 1 <= contracts plan.
Proof.
  intros Hp HN HL HP.
  eexists _, _. split.
  - apply plan_size_run; [eassumption | lia].
  - simpl. apply planned_contracts_ge_1.
Qed.

Lemma plan_size_from_notional_at_least_one_witness :
  exists plan s',
    plan_size_from_notional "BTC-USDT-SWAP" 10 100 (calm_world 30000) start
      = (Ok plan, s') /\ 1 <= contracts plan.
Proof.
  apply (plan_size_from_notional_at_least_one
           "BTC-USDT-SWAP" (calm_world 30000) start 30000 10 100);
    [reflexivity | reflexivity | lia | reflexivity].
Defined.

(** C9. With the price [P > 0] fixed and no cap applied, the contract count of
    [plan_size_from_notional] is monotone: raising the notional from [N > 0]
    to [N' >= N] at a fixed leverage [L >= 1] never lowers it, and neither
    does raising the leverage from [L >= 1] to [L' >= L] at a fixed notional
    [N > 0]; the count compared is the one after the greedy increment. *)
Theorem plan_size_from_notional_monotone
    (inst : string) (w w' : World) (s s' : State) (P : Q) :
  market_ticker w (clock s) = Some P ->
  market_ticker w' (clock s') = Some P ->
  (0 < P)%Q ->
  (forall (N N' : Q) (L : Z),
      (0 < N)%Q -> (N <= N')%Q -> 1 <= L ->
      exists plan plan' t t',
        plan_size_from_notional inst N L w s = (Ok plan, t) /\
        plan_size_from_notional inst N' L w' s' = (Ok plan', t') /\
        contracts plan <= contracts plan') /\
  (forall (N : Q) (L L' : Z),
      (0 < N)%Q -> 1 <= L -> L <= L' ->
      exists plan plan' t t',
        plan_size_from_notional inst N L w s = (Ok plan, t) /\
        plan_size_from_notional inst N L' w' s' = (Ok plan', t') /\
        contracts plan <= contracts plan').
Proof.
  intros Hp Hp' HP.
  assert (Hd : divisor_of P = P).
  { unfold divisor_of. replace (truthy P) with true; [reflexivity|].
    symmetry. apply truthy_true. lra. }
  split.
  - intros N N' L HN HNN HL.
    eexists _, _, _, _. split; [|split].
    + apply plan_size_run; [eassumption | lia].
    + apply plan_size_run; [eassumption | lia].
    + simpl. rewrite Hd. apply planned_contracts_mono; (assumption || lia).
  - intros N L L' HN HL HLL.
    eexists _, _, _, _. split; [|split].
    + apply plan_size_run; [eassumption | lia].
    + apply plan_size_run; [eassumption | lia].
    + simpl. rewrite Hd. apply planned_contracts_mono; (assumption || lra || lia).
Qed.

Lemma plan_size_from_notional_monotone_witness :
  exists plan plan' t t',
    plan_size_from_notional "ETH-USDT-SWAP" 10 100 (calm_world 2000) start
      = (Ok plan, t) /\
    plan_size_from_notional "ETH-USDT-SWAP" 50 100 (calm_world 2000) start
      = (Ok plan', t') /\
    contracts plan <= contracts plan'.
Proof.
  apply (proj1 (plan_size_from_notional_monotone
                  "ETH-USDT-SWAP" (calm_world 2000) (calm_world 2000) start start 2000
                  eq_refl eq_refl eq_refl) 10%Q 50%Q 100);
    [reflexivity | discriminate | lia].
Defined.

(** C10. When the exchange reports a last price of 0, the planner divides by
    1.0 instead: the run is the very run it makes at price 1.0, the division
    by the price raises nothing, and with a non-zero leverage it returns the
    plan computed at price 1.0. *)
Theorem plan_size_from_notional_zero_price
    (inst : string) (w w1 : World) (s : State) (p N : Q) (L : Z) :
  market_ticker w (clock s) = Some p ->
  (p == 0)%Q ->
  market_ticker w1 (clock s) = Some 1%Q ->
  plan_size_from_notional inst N L w s = plan_size_from_notional inst N L w1 s /\
  (L <> 0 ->
   plan_size_from_notional inst N L w s =
     (Ok {| contracts := planned_contracts 1 N L; notional := N |},
      record_call (EGetTicker inst) s)).
Proof.
  intros Hp H0 H1.
  assert (Hd : divisor_of p = 1%Q).
  { unfold divisor_of. apply truthy_false in H0. rewrite H0. reflexivity. }
  split.
  - unfold plan_size_from_notional, get_last_price, div. mrun.
    rewrite Hp, H1. fold (divisor_of p). rewrite Hd.
    change (truthy 1%Q) with true. change (Qeq_bool 1 0) with false.
    cbv beta iota. destruct (Qeq_bool (inject_Z L) 0); reflexivity.
  - intros HL. rewrite (plan_size_run inst N L w s p Hp HL), Hd. reflexivity.
Qed.

Lemma plan_size_from_notional_zero_price_witness :
  plan_size_from_notional "BTC-USDT-SWAP" 10 100 (calm_world 0) start
    = plan_size_from_notional "BTC-USDT-SWAP" 10 100 (calm_world 1) start /\
  (100 <> 0 ->
   plan_size_from_notional "BTC-USDT-SWAP" 10 100 (calm_world 0) start =
     (Ok {| contracts := planned_contracts 1 10 100; notional := 10 |},
      record_call (EGetTicker "BTC-USDT-SWAP") start)).
Proof.
  apply (plan_size_from_notional_zero_price
           "BTC-USDT-SWAP" (calm_world 0) (calm_world 1) start 0 10 100);
    reflexivity.
Defined.

(** ** Trigger prices *)

(** The take-profit price as [place_order] computes it (lines 244-265),
    before it is written with six decimals. For every last price [last > 0]
    and every ratio (its absolute value is what the code uses, and is never
    negative), it lies strictly above [last] when the direction resolves to
    long ([pos_side] long, or [side] buy in net mode) and strictly below
    [last] when it resolves to short; with a zero ratio it is exactly
    [last * 1.002] (long) or [last * 0.998] (short). *)
Theorem tp_price_strictly_beyond_last (last tp_ratio : Q) (pos_side side : string) :
  (0 < last)%Q ->
  (0 <= Qabs tp_ratio)%Q ->
  let tp_px := tp_price last (Qabs tp_ratio) (is_long_of pos_side side) in
  (pos_side = "long" \/ (pos_side = "net" /\ side = "buy") ->
   (last < tp_px)%Q /\
   ((tp_ratio == 0)%Q -> tp_px = (last * (1002 # 1000))%Q)) /\
  (pos_side = "short" \/ (pos_side = "net" /\ side <> "buy") ->
   (tp_px < last)%Q /\
   ((tp_ratio == 0)%Q -> tp_px = (last * (998 # 1000))%Q)).
Proof.
  intros Hlast Habs tp_px. subst tp_px. split.
  - intros Hdir.
    assert (Hl : is_long_of pos_side side = true).
    { destruct Hdir as [-> | [-> ->]]; reflexivity. }
    rewrite Hl. unfold tp_price.
    destruct (Qle_bool (last * (1 + Qabs tp_ratio)) last) eqn:B.
    + split; [lra | reflexivity].
    + apply Qle_bool_false in B. split; [assumption|].
      intros Hz. exfalso.
      assert (Ha : (Qabs tp_ratio == 0)%Q) by (rewrite Hz; reflexivity).
      rewrite Ha in B. lra.
  - intros Hdir.
    assert (Hl : is_long_of pos_side side = false).
    { destruct Hdir as [-> | [-> Hs]]; [reflexivity|].
      unfold is_long_of. simpl. apply String.eqb_neq. assumption. }
    rewrite Hl. unfold tp_price.
    destruct (Qle_bool last (last * (1 - Qabs tp_ratio))) eqn:B.
    + split; [lra | reflexivity].
    + apply Qle_bool_false in B. split; [assumption|].
      intros Hz. exfalso.
      assert (Ha : (Qabs tp_ratio == 0)%Q) by (rewrite Hz; reflexivity).
      rewrite Ha in B. lra.
Qed.

Lemma tp_price_strictly_beyond_last_witness :
  let tp_px := tp_price 30000 (Qabs 0) (is_long_of "net" "buy") in
  (30000 < tp_px)%Q /\ tp_px = (30000 * (1002 # 1000))%Q.
Proof.
  assert (H0 : (0 < 30000)%Q) by reflexivity.
  assert (H1 : (0 <= Qabs 0)%Q) by discriminate.
  destruct (proj1 (tp_price_strictly_beyond_last 30000 0 "net" "buy" H0 H1)
              (or_intror (conj eq_refl eq_refl))) as [Hlt Hz].
  split; [exact Hlt | exact (Hz (Qeq_refl 0))].
Defined.

(** ** Frame rules: what a computation leaves alone *)

Create HintDb keeps.

Section Frame.
Variable R : State -> State -> Prop.
Hypothesis R_refl : forall s, R s s.
Hypothesis R_trans : forall a b c, R a b -> R b c -> R a c.

Lemma keeps_ret {A} (a : A) : keeps R (ret a).
Proof. intros w s. apply R_refl. Qed.

Lemma keeps_raise {A} (e : exn) : keeps R (@raise A e).
Proof. intros w s. apply R_refl. Qed.

Lemma keeps_running {A} : keeps R (@running A).
Proof. intros w s. apply R_refl. Qed.

Lemma keeps_lift {A} (r : result A) : keeps R (lift r).
Proof. intros w s. apply R_refl. Qed.

Lemma keeps_world : keeps R world.
Proof. intros w s. apply R_refl. Qed.

Lemma keeps_get_state : keeps R get_state.
Proof. intros w s. apply R_refl. Qed.

Lemma keeps_bind {A B} (m : M A) (k : A -> M B) :
  keeps R m -> (forall a, keeps R (k a)) -> keeps R (bind m k).
Proof.
  intros Hm Hk w s. unfold bind. specialize (Hm w s).
  destruct (m w s) as [[a|e|] s1]; simpl in *; try assumption.
  eapply R_trans; [exact Hm | apply Hk].
Qed.

Lemma keeps_try_except {A} (m : M A) handles (h : exn -> M A) :
  keeps R m -> (forall e, keeps R (h e)) -> keeps R (try_except m handles h).
Proof.
  intros Hm Hh w s. unfold try_except. specialize (Hm w s).
  destruct (m w s) as [[a|e|] s1]; simpl in *; try assumption.
  destruct (handles e); simpl; [|assumption].
  eapply R_trans; [exact Hm | apply Hh].
Qed.

Hypothesis R_call : forall e s, is_log e = false -> R s (record_call e s).

Lemma keeps_call (e : Event) : is_log e = false -> keeps R (call e).
Proof. intros H w s. apply R_call, H. Qed.

Local Hint Resolve keeps_ret keeps_raise keeps_running keeps_lift keeps_world
  keeps_get_state keeps_call : keeps.

Ltac keeps_step :=
  match goal with
  | |- keeps _ (bind _ _) => apply keeps_bind; [|intros ?]
  | |- keeps _ (try_except _ _ _) => apply keeps_try_except; [|intros ?]
  | |- keeps _ (match ?x with _ => _ end) => destruct x
  | |- keeps _ _ => solve [eauto with keeps]
  end.

Lemma keeps_sleep sec : keeps R (sleep sec).
Proof. unfold sleep. repeat keeps_step. Qed.

Lemma keeps_get_candles inst limit : keeps R (get_candles inst limit).
Proof. unfold get_candles. repeat keeps_step. Qed.

Lemma keeps_get_positions inst : keeps R (get_positions inst).
Proof. unfold get_positions. repeat keeps_step. Qed.

Lemma keeps_get_usdt_balance : keeps R get_usdt_balance.
Proof. unfold get_usdt_balance. repeat keeps_step. Qed.

Lemma keeps_get_last_price inst : keeps R (get_last_price inst).
Proof. unfold get_last_price. repeat keeps_step. Qed.

Lemma keeps_get_position_mode : keeps R get_position_mode.
Proof. unfold get_position_mode. repeat keeps_step. Qed.

Lemma keeps_set_leverage inst lever mgn ps : keeps R (set_leverage inst lever mgn ps).
Proof. unfold set_leverage. repeat keeps_step. Qed.

Lemma keeps_trade_call p : keeps R (trade_call p).
Proof. unfold trade_call. repeat keeps_step. Qed.

Lemma keeps_div a b : keeps R (div a b).
Proof. unfold div. repeat keeps_step. Qed.

Lemma keeps_get_cached_position_cap inst lever :
  keeps R (get_cached_position_cap inst lever).
Proof. unfold get_cached_position_cap. repeat keeps_step. Qed.

Local Hint Resolve keeps_sleep keeps_get_candles keeps_get_positions
  keeps_get_usdt_balance keeps_get_last_price keeps_get_position_mode
  keeps_set_leverage keeps_trade_call keeps_div
  keeps_get_cached_position_cap : keeps.

Lemma keeps_plan_size_from_notional inst N L :
  keeps R (plan_size_from_notional inst N L).
Proof. unfold plan_size_from_notional. repeat keeps_step. Qed.

Lemma keeps_decide_direction ai inst candles :
  keeps R (decide_direction ai inst candles).
Proof.
  destruct ai; unfold decide_direction, OpenAICompat.decide_direction,
    Heuristic.decide_direction; repeat keeps_step.
Qed.

Lemma keeps_margin_rung params sz result : keeps R (margin_rung params sz result).
Proof. unfold margin_rung. repeat keeps_step. Qed.

Lemma keeps_poll_until_no_positions fuel poll_sec :
  keeps R (poll_until_no_positions fuel poll_sec).
Proof.
  induction fuel as [|fuel IH]; simpl; [apply keeps_running|].
  repeat keeps_step.
Qed.

Local Hint Resolve keeps_plan_size_from_notional keeps_decide_direction
  keeps_margin_rung keeps_poll_until_no_positions : keeps.

Hypothesis R_cache : forall c s, R s (set_cap_cache c s).

Lemma keeps_update_position_cap inst lever cap :
  keeps R (update_position_cap inst lever cap).
Proof.
  unfold update_position_cap. repeat keeps_step.
  intros w s. apply R_cache.
Qed.

Local Hint Resolve keeps_update_position_cap : keeps.

Lemma keeps_cap_rung inst lever params sz result :
  keeps R (cap_rung inst lever params sz result).
Proof. unfold cap_rung. repeat keeps_step. Qed.

Local Hint Resolve keeps_cap_rung : keeps.

Lemma keeps_retry_ladder inst lever params sz tp attach last :
  keeps R (retry_ladder inst lever params sz tp attach last).
Proof. unfold retry_ladder. repeat keeps_step. Qed.

Local Hint Resolve keeps_retry_ladder : keeps.

Lemma keeps_place_order inst side td sz ord ps tp sl tpt slt lever :
  keeps R (place_order inst side td sz ord ps tp sl tpt slt lever).
Proof. unfold place_order. repeat keeps_step. Qed.

Local Hint Resolve keeps_place_order : keeps.

Variable loggable : Event -> Prop.
Hypothesis R_log : forall e s, loggable e -> R s (record_log e s).

Lemma keeps_log e : loggable e -> keeps R (log e).
Proof. intros H w s. apply R_log, H. Qed.

Lemma keeps_log_close_order inst open_balance ord :
  (forall i a b o, loggable (ELogClose i a b o)) ->
  keeps R (log_close_order inst open_balance ord).
Proof.
  intros Hl. unfold log_close_order. repeat keeps_step. apply keeps_log, Hl.
Qed.

Lemma keeps_open_position ai cfg inst dry candles :
  (forall c n, loggable (ELogPlan c n)) ->
  keeps R (open_position ai cfg inst dry candles).
Proof.
  intros Hl. unfold open_position. repeat keeps_step; apply keeps_log, Hl.
Qed.
End Frame.

(** *** The cursor is framed by everything but [trade_loop] itself *)

Lemma same_idx_refl s : same_idx s s.
Proof. reflexivity. Qed.

Lemma same_idx_trans a b c : same_idx a b -> same_idx b c -> same_idx a c.
Proof. unfold same_idx. congruence. Qed.

Lemma same_idx_call e s : is_log e = false -> same_idx s (record_call e s).
Proof. reflexivity. Qed.

Lemma same_idx_cache c s : same_idx s (set_cap_cache c s).
Proof. reflexivity. Qed.

Lemma same_idx_log e s : True -> same_idx s (record_log e s).
Proof. reflexivity. Qed.

Ltac idx_side :=
  first [exact same_idx_refl | exact same_idx_trans | exact same_idx_call
        | exact same_idx_cache].

Ltac idx_step :=
  match goal with
  | |- keeps same_idx (bind _ _) =>
      apply (keeps_bind same_idx same_idx_trans); [|intros ?]
  | |- keeps same_idx (match ?x with _ => _ end) => destruct x
  | |- keeps same_idx (ret _) => apply keeps_ret; idx_side
  | |- keeps same_idx (raise _) => apply keeps_raise; idx_side
  | |- keeps same_idx (sleep _) => apply keeps_sleep; idx_side
  | |- keeps same_idx (get_candles _ _) => apply keeps_get_candles; idx_side
  | |- keeps same_idx get_usdt_balance => apply keeps_get_usdt_balance; idx_side
  | |- keeps same_idx (open_position _ _ _ _ _) =>
      apply (keeps_open_position same_idx same_idx_refl same_idx_trans same_idx_call
               same_idx_cache (fun _ => True) same_idx_log); auto
  | |- keeps same_idx (poll_until_no_positions _ _) =>
      apply keeps_poll_until_no_positions; idx_side
  | |- keeps same_idx (log_close_order _ _ _) =>
      apply (keeps_log_close_order same_idx same_idx_refl same_idx_trans same_idx_call
               (fun _ => True) same_idx_log); auto
  end.

(** ** The trading loop *)

Lemma Qabs_positive q : Qltb 0 (Qabs q) = true <-> ~ (q == 0)%Q.
Proof.
  rewrite Qltb_lt. split.
  - intros H E. assert (Ha : (Qabs q == 0)%Q) by (rewrite E; reflexivity). lra.
  - intros H. destruct (Qlt_le_dec q 0) as [Hneg|Hpos].
    + rewrite Qabs_neg by lra. lra.
    + rewrite Qabs_pos by lra. destruct (Qeq_dec q 0); [contradiction | lra].
Qed.

Lemma any_open_exists positions :
  Exists has_position positions ->
  any_open positions = Ok true \/ any_open positions = Raise ValueError.
Proof.
  induction positions as [|p ps IH]; intros H; [inversion H|].
  simpl. destruct (pos_pos p) as [[q|]|] eqn:E; simpl.
  - destruct (Qltb 0 (Qabs q)) eqn:B; [left; reflexivity|].
    apply IH. inversion H as [? ? [q' [Hq Hnz]]|]; subst; [|assumption].
    exfalso. rewrite E in Hq. injection Hq as <-.
    apply Qabs_positive in Hnz. congruence.
  - right. reflexivity.
  - change (Qltb 0 (Qabs 0)) with false. cbv iota.
    apply IH. inversion H as [? ? [q' [Hq _]]|]; subst; [|assumption].
    rewrite E in Hq. discriminate.
Qed.

Lemma any_open_parsed positions :
  Forall pos_parses positions ->
  any_open positions = Ok true \/ any_open positions = Ok false.
Proof.
  induction 1 as [|p ps Hp _ IH]; [right; reflexivity|].
  simpl. destruct (pos_pos p) as [[q|]|] eqn:E; simpl.
  - destruct (Qltb 0 (Qabs q)); [left; reflexivity | exact IH].
  - exfalso. apply Hp. exact E.
  - change (Qltb 0 (Qabs 0)) with false. exact IH.
Qed.

Lemma submissions_app t u : submissions (t ++ u) = (submissions t ++ submissions u)%list.
Proof.
  induction t as [|e t IH]; [reflexivity|].
  destruct e; simpl; rewrite ?IH; reflexivity.
Qed.

(** What [cycle] does when the position guard holds it back. *)
Lemma cycle_guarded fuel ai cfg w s positions :
  account_positions w (clock s) = Some positions ->
  any_open positions = Ok true ->
  cycle fuel ai cfg w s =
    (Ok tt,
     record_call (ESleep (poll_interval_sec (trading cfg)))
       (record_call (EGetPositions None) s)).
Proof.
  intros Hp Ho. unfold cycle, get_positions. mrun. simpl.
  rewrite Hp, Ho. reflexivity.
Qed.

Lemma cycle_guard_fault fuel ai cfg w s positions e :
  account_positions w (clock s) = Some positions ->
  any_open positions = Raise e ->
  e <> NetworkError ->
  cycle fuel ai cfg w s = (Raise e, record_call (EGetPositions None) s).
Proof.
  intros Hp Ho He. unfold cycle, get_positions. mrun. simpl.
  rewrite Hp, Ho. destruct e; try reflexivity. contradiction.
Qed.

(** C7. If the aggregate position query of a cycle returns an entry with a
    non-zero magnitude, the cycle submits no order: the only things it can do
    are query the positions and sleep one poll interval, or query the
    positions and stop on a [pos] text that is no number; when every [pos]
    is a number it does the former, and leaves the cursor alone. *)
Theorem open_position_blocks_the_cycle
    (fuel : nat) (ai : AIClient) (cfg : AppConfig) (w : World) (s : State)
    (positions : list Position) :
  account_positions w (clock s) = Some positions ->
  Exists has_position positions ->
  let out := cycle fuel ai cfg w s in
  let asked := record_call (EGetPositions None) s in
  let waited := record_call (ESleep (poll_interval_sec (trading cfg))) asked in
  submissions (trace (snd out)) = submissions (trace s) /\
  (out = (Ok tt, waited) \/ out = (Raise ValueError, asked)) /\
  (Forall pos_parses positions -> out = (Ok tt, waited)).
Proof.
  intros Hp Hex out asked waited. subst out asked waited.
  destruct (any_open_exists positions Hex) as [Ho|Ho].
  - rewrite (cycle_guarded fuel ai cfg w s positions Hp Ho). simpl.
    repeat split; auto.
    rewrite !submissions_app. simpl. rewrite !app_nil_r. reflexivity.
  - rewrite (cycle_guard_fault fuel ai cfg w s positions _ Hp Ho) by discriminate.
    simpl. repeat split; auto.
    + rewrite !submissions_app. simpl. rewrite !app_nil_r. reflexivity.
    + intros Hall. destruct (any_open_parsed positions Hall); congruence.
Qed.

Lemma open_position_blocks_the_cycle_witness :
  let out := cycle 5 OpenAICompatClient live_cfg busy_world start in
  submissions (trace (snd out)) = [] /\
  out = (Ok tt, record_call (ESleep 30) (record_call (EGetPositions None) start)).
Proof.
  assert (Hex : Exists has_position
                  [{| pos_instId := "ETH-USDT-SWAP"; pos_pos := Some (Some 3%Q) |}]).
  { constructor. exists 3%Q. split; [reflexivity | discriminate]. }
  assert (Hall : Forall pos_parses
                   [{| pos_instId := "ETH-USDT-SWAP"; pos_pos := Some (Some 3%Q) |}]).
  { repeat constructor. discriminate. }
  destruct (open_position_blocks_the_cycle 5 OpenAICompatClient live_cfg busy_world
              start _ eq_refl Hex) as [Hsub [_ Hwait]].
  split; [exact Hsub | exact (Hwait Hall)].
Defined.

Lemma open_and_wait_keeps_idx fuel ai cfg inst dry poll :
  keeps same_idx (open_and_wait fuel ai cfg inst dry poll).
Proof. unfold open_and_wait. repeat idx_step. Qed.

Lemma try_except_network_idx (m : M unit) (poll : Z) (w : World) (s : State) (k : nat) :
  idx (snd (m w s)) = k ->
  idx (snd (try_except m only_NetworkError (fun _ => sleep poll) w s)) = k.
Proof.
  intros H. unfold try_except. destruct (m w s) as [[a|e|] s1]; simpl in *; auto.
  destruct (only_NetworkError e); simpl; auto.
Qed.

Lemma nth_error_in_range {A} (l : list A) (i : nat) :
  l <> [] -> exists a, nth_error l (i mod length l) = Some a.
Proof.
  intros Hl.
  destruct (nth_error l (i mod length l)) as [a|] eqn:E; [eauto|].
  apply nth_error_None in E.
  assert (length l <> 0)%nat by (destruct l; simpl; congruence).
  pose proof (Nat.mod_upper_bound i (length l)). lia.
Qed.

(** C8 fails as stated: a pass that is held back by an open position leaves
    the cursor where it was. *)
Lemma cursor_rests_while_a_position_is_open :
  idx (snd (cycle 5 OpenAICompatClient live_cfg busy_world start)) = idx start /\
  idx (snd (cycle 5 OpenAICompatClient live_cfg busy_world start)) <> (idx start + 1)%nat.
Proof. split; [reflexivity | discriminate]. Qed.

(** C8, amended. With a non-empty instrument list, the cursor advances by
    exactly one in every pass whose position query answers and reports a flat
    account, whatever happens afterwards (order placed, placement failed,
    network fault, an exception that ends the loop, or a wait that never
    ends); in every other pass (position open, position query failed or
    unreadable) it does not move. *)
Theorem cursor_advances_once_past_the_guard
    (fuel : nat) (ai : AIClient) (cfg : AppConfig) (w : World) (s : State) :
  instruments cfg <> [] ->
  let s' := snd (cycle fuel ai cfg w s) in
  match account_positions w (clock s) with
  | Some positions =>
      match any_open positions with
      | Ok false => idx s' = (idx s + 1)%nat
      | _ => idx s' = idx s
      end
  | None => idx s' = idx s
  end.
Proof.
  intros Hne s'. subst s'. unfold cycle.
  destruct (account_positions w (clock s)) as [positions|] eqn:Hp.
  - destruct (any_open positions) as [[|]|e|] eqn:Ho;
      apply try_except_network_idx; unfold get_positions; mrun; simpl;
      rewrite Hp, Ho; try reflexivity.
    destruct (nth_error_in_range (instruments cfg) (idx s) Hne) as [inst Hi].
    change (idx (record_call (EGetPositions None) s)) with (idx s).
    rewrite Hi.
    rewrite (open_and_wait_keeps_idx fuel ai cfg inst _ _ w _). reflexivity.
  - apply try_except_network_idx. unfold get_positions. mrun. simpl.
    rewrite Hp. reflexivity.
Qed.

Lemma cursor_advances_once_past_the_guard_witness :
  idx (snd (cycle 5 HeuristicAIClient live_cfg (calm_world 30000) start)) = 1%nat.
Proof.
  assert (Hne : instruments live_cfg <> []) by discriminate.
  exact (cursor_advances_once_past_the_guard 5 HeuristicAIClient live_cfg
           (calm_world 30000) start Hne).
Defined.

(** ** The direction oracle *)

(** What the momentum test computes: with the closes of the window read, it
    answers ["long"] exactly when the window has two closes or more and its
    last close exceeds its first. *)
Lemma momentum_long_iff window candles closes :
  closes_of (firstn window candles) = Ok closes ->
  momentum window candles = long <->
  (2 <= length closes)%nat /\ (hd 0%Q closes < List.last closes 0%Q)%Q.
Proof.
  intros H. unfold momentum. rewrite H.
  destruct (2 <=? length closes)%nat eqn:L; simpl.
  - apply Nat.leb_le in L.
    destruct (Qltb (hd 0%Q closes) (List.last closes 0%Q)) eqn:B.
    + apply Qltb_lt in B. tauto.
    + apply Qltb_ge in B. split; [discriminate|]. intros [_ C]. lra.
  - apply Nat.leb_gt in L. split; [discriminate|]. intros [C _]. lia.
Qed.

Lemma momentum_short_on_fault window candles e :
  closes_of (firstn window candles) = Raise e -> momentum window candles = short.
Proof. intros H. unfold momentum. rewrite H. reflexivity. Qed.

Lemma momentum_short_on_few window candles closes :
  closes_of (firstn window candles) = Ok closes ->
  (length closes < 2)%nat -> momentum window candles = short.
Proof.
  intros H L. unfold momentum. rewrite H.
  apply Nat.leb_gt in L. rewrite L. reflexivity.
Qed.

(** C2, on the code. Given the closes 100, 101, 102 newest first, the most
    recent close (100) is below the close two bars earlier (102): the price
    fell, and the heuristic answers ["long"]. It compares the last element of
    the window with the first one, which on newest-first data is the older
    close against the newer. *)
Theorem heuristic_long_on_falling_closes :
  let candles := [row 100; row 101; row 102] in
  closes_of candles = Ok [100; 101; 102]%Q /\
  ~ (102 < 100)%Q /\
  Heuristic.decide_direction "BTC-USDT-SWAP" candles (calm_world 100) start
    = (Ok long, start).
Proof.
  split; [reflexivity|]. split; [discriminate | reflexivity].
Qed.

(** On an answer that reaches it, the primary client always decides. *)
Lemma openai_decides_on_content inst candles w s text :
  http_post w (clock s) = Content text ->
  exists d, OpenAICompat.decide_direction inst candles w s
            = (Ok d, record_call (EHttpPost inst) s).
Proof.
  intros H. unfold OpenAICompat.decide_direction. mrun. simpl. rewrite H.
  destruct (contains "long" (lower (strip text)) &&
            negb (contains "short" (lower (strip text)))); [eauto|].
  destruct (contains "short" (lower (strip text)) &&
            negb (contains "long" (lower (strip text)))); eauto.
Qed.

(** On every failure of the request itself, it raises. *)
Lemma openai_raises_on_fault inst candles w s :
  match http_post w (clock s) with
  | Content _ => True
  | _ => exists e, fst (OpenAICompat.decide_direction inst candles w s) = Raise e /\
                   e <> NetworkError
  end.
Proof.
  unfold OpenAICompat.decide_direction. mrun. simpl.
  destruct (http_post w (clock s)); auto; eexists; (split; [reflexivity | discriminate]).
Qed.

(** C1, on the code. When the request to the decision service times out,
    [decide_direction] of the primary client raises instead of falling back
    to the heuristic, and since the exception is no [NetworkError] it leaves
    [trade_loop]: the loop ends in its first pass. *)
Theorem decision_fault_ends_the_loop :
  fst (OpenAICompat.decide_direction "BTC-USDT-SWAP" [row 100; row 101; row 102]
         timeout_world start) = Raise TransportError /\
  fst (cycle 5 OpenAICompatClient live_cfg timeout_world start) = Raise TransportError /\
  fst (trade_loop 3 5 OpenAICompatClient live_cfg timeout_world start)
    = Raise TransportError.
Proof. repeat split; vm_compute; reflexivity. Qed.

(** ** The order submitter *)

Lemma trade_call_run p w s :
  trade_call p w s =
    (reply_result (trade_place_order w (clock s)), record_call (ETradePlaceOrder p) s).
Proof.
  unfold trade_call. mrun. simpl.
  destruct (trade_place_order w (clock s)); reflexivity.
Qed.

Lemma update_position_cap_run inst lever cap w s :
  exists s1,
    update_position_cap inst lever cap w s = (Ok tt, s1) /\
    trace s1 = trace s /\ clock s1 = clock s.
Proof.
  unfold update_position_cap.
  destruct lever as [l|], cap as [c|]; try (eexists; split; [reflexivity | auto]).
  destruct (negb (String.eqb inst "") && truthyZ l && truthyZ c);
    eexists; (split; [reflexivity | auto]).
Qed.

Lemma rung_outcome_retry result w s p2 :
  rung_outcome result w s (trade_call p2 w s).
Proof.
  right. exists p2. rewrite trade_call_run. split; reflexivity.
Qed.

Lemma rung_outcome_pass result w s : rung_outcome result w s (Ok result, s).
Proof. left. repeat split. Qed.

Lemma margin_rung_outcome params sz result w s :
  rung_outcome result w s (margin_rung params sz result w s).
Proof.
  unfold margin_rung.
  destruct (match first_item result with
            | Some item => String.eqb (sCode item) "51008"
            | None => false
            end); [|apply rung_outcome_pass].
  destruct (int_float sz) as [cur_sz|]; [|apply rung_outcome_pass].
  destruct (truthyZ cur_sz && (1 <? cur_sz));
    [apply rung_outcome_retry | apply rung_outcome_pass].
Qed.

Lemma rung_outcome_shift result w s s1 out :
  trace s1 = trace s -> clock s1 = clock s ->
  rung_outcome result w s1 out -> rung_outcome result w s out.
Proof.
  intros Ht Hc [[H1 [H2 H3]]|[p2 [H1 H2]]].
  - left. repeat split; congruence.
  - right. exists p2. split; congruence.
Qed.

Lemma cap_rung_outcome inst lever params sz result w s :
  rung_outcome result w s (cap_rung inst lever params sz result w s).
Proof.
  unfold cap_rung.
  destruct (match first_item result with
            | Some item =>
                if String.eqb (sCode item) "51004" then (true, parse_cap (sMsg item))
                else (false, None)
            | None => (false, None)
            end) as [try_retry_cap cap_value].
  destruct try_retry_cap; [|apply margin_rung_outcome].
  unfold bind.
  destruct (truthy_opt cap_value && truthy_opt (int_float sz)).
  - destruct (update_position_cap_run inst lever cap_value w s) as [s1 [E [Ht Hc]]].
    unfold bind. rewrite E. unfold ret.
    apply (rung_outcome_shift result w s s1); auto.
    destruct (truthyZ _ && negb _);
      [apply rung_outcome_retry | apply margin_rung_outcome].
  - destruct (truthy_opt (int_float sz)); unfold ret.
    + destruct (truthyZ _ && negb _);
        [apply rung_outcome_retry | apply margin_rung_outcome].
    + apply margin_rung_outcome.
Qed.

Lemma retry_ladder_outcome inst lever params sz tp attach last w s :
  ladder_outcome params w s (retry_ladder inst lever params sz tp attach last w s).
Proof.
  unfold retry_ladder, bind. rewrite trade_call_run.
  destruct (trade_place_order w (clock s)) as [msg|result] eqn:E; simpl.
  - left. rewrite E. split; reflexivity.
  - destruct (tp_retry_fires (is_tp_rejection result) attach last) as [[[a orig] l]|].
    + right. eexists. rewrite trade_call_run. simpl. split; [reflexivity|].
      rewrite <- app_assoc. reflexivity.
    + destruct (cap_rung_outcome inst lever params sz result w
                  (record_call (ETradePlaceOrder params) s))
        as [[H1 [H2 H3]]|[p2 [H1 H2]]].
      * left. rewrite E. split; assumption.
      * right. exists p2. split; [exact H1|].
        rewrite H2. simpl. rewrite <- app_assoc. reflexivity.
Qed.

(** The [except] branch turns the outcome of the ladder into a returned
    dict and touches nothing else. *)
Lemma guarded_ladder_outcome inst lever params sz tp attach last w s :
  let out := try_except (retry_ladder inst lever params sz tp attach last)
               any_exception error_dict w s in
  (fst out = Ok (answer_of (trade_place_order w (clock s))) /\
   trace (snd out) = (trace s ++ [ETradePlaceOrder params])%list) \/
  (exists p2,
      fst out = Ok (answer_of (trade_place_order w (S (clock s)))) /\
      trace (snd out) = (trace s ++ [ETradePlaceOrder params; ETradePlaceOrder p2])%list).
Proof.
  intros out. subst out. unfold try_except.
  pose proof (retry_ladder_outcome inst lever params sz tp attach last w s) as H.
  destruct (retry_ladder inst lever params sz tp attach last w s) as [r s'].
  destruct H as [[H1 H2]|[p2 [H1 H2]]]; simpl in H1, H2.
  - left. destruct (trade_place_order w (clock s)); simpl in H1; subst r; simpl; auto.
  - right. exists p2.
    destruct (trade_place_order w (S (clock s))); simpl in H1; subst r; simpl; auto.
Qed.

Lemma place_order_without_ratios inst side td sz ord ps tpt slt lever w s :
  place_order inst side td sz ord ps None None tpt slt lever w s =
    try_except
      (retry_ladder inst lever (params_of inst side td sz ord ps None) sz None None None)
      any_exception error_dict w s.
Proof. reflexivity. Qed.

Lemma place_order_with_ratio inst side td sz ord ps tp sl tpt slt lever w s p :
  first_submission_clock tp sl s = S (clock s) ->
  market_ticker w (clock s) = Some p ->
  let attach := build_attach_algo p ps side tp sl tpt slt in
  place_order inst side td sz ord ps tp sl tpt slt lever w s =
    try_except
      (retry_ladder inst lever (params_of inst side td sz ord ps (Some attach)) sz tp
         (Some attach) (Some p))
      any_exception error_dict w (record_call (EGetTicker inst) s).
Proof.
  intros Hc Hp attach. subst attach.
  unfold place_order, get_last_price, bind at 1.
  destruct tp, sl; try (exfalso; simpl in Hc; lia);
    unfold bind, call, world, ret; simpl; rewrite Hp; reflexivity.
Qed.

Lemma place_order_price_fault inst side td sz ord ps tp sl tpt slt lever w s :
  first_submission_clock tp sl s = S (clock s) ->
  market_ticker w (clock s) = None ->
  place_order inst side td sz ord ps tp sl tpt slt lever w s =
    (Raise NetworkError, record_call (EGetTicker inst) s).
Proof.
  intros Hc Hp.
  unfold place_order, get_last_price, bind at 1.
  destruct tp, sl; try (exfalso; simpl in Hc; lia);
    unfold bind, call, world, ret; simpl; rewrite Hp; reflexivity.
Qed.

Lemma first_submission_clock_cases tp sl s :
  (tp = None /\ sl = None /\ first_submission_clock tp sl s = clock s) \/
  first_submission_clock tp sl s = S (clock s).
Proof. destruct tp, sl; simpl; auto. Qed.

Lemma retry_ladder_tp_retry inst lever params sz tp a l w s r1 orig :
  trade_place_order w (clock s) = TradeReturns r1 ->
  is_tp_rejection r1 = true ->
  tpTriggerPx a = Some orig ->
  truthy l = true ->
  retry_ladder inst lever params sz tp (Some a) (Some l) w s =
    trade_call (with_tp params a (flipped_tp orig l tp)) w
      (record_call (ETradePlaceOrder params) s).
Proof.
  intros Hr Htp Ha Hl.
  unfold retry_ladder, bind. rewrite trade_call_run, Hr. simpl.
  unfold tp_retry_fires. rewrite Htp, Ha, Hl. reflexivity.
Qed.

(** C3. Within one [place_order] call, whatever the exchange answers: at most
    two submissions are made (the original and one retry, so no rejection
    class is retried twice); when a retry was made, its answer is what
    [place_order] returns, whatever that answer says; and when a take-profit
    trigger is attached (the last price being non-zero) and the exchange
    answers a TP-direction rejection to the original and again to the retry,
    exactly two submissions are made and the second rejection is returned. *)
Theorem place_order_single_shot
    (inst side td : string) (sz : option Q) (ord ps : string) (tp sl : option Q)
    (tpt slt : string) (lever : option Z) (w : World) (s : State) :
  let out := place_order inst side td sz ord ps tp sl tpt slt lever w s in
  let c1 := first_submission_clock tp sl s in
  exists evs,
    trace (snd out) = (trace s ++ evs)%list /\
    (length (submissions evs) <= 2)%nat /\
    (length (submissions evs) = 2%nat ->
     fst out = Ok (answer_of (trade_place_order w (S c1)))) /\
    (forall r1 r2 ratio last,
        tp = Some ratio ->
        market_ticker w (clock s) = Some last -> ~ (last == 0)%Q ->
        trade_place_order w c1 = TradeReturns r1 -> is_tp_rejection r1 = true ->
        trade_place_order w (S c1) = TradeReturns r2 -> is_tp_rejection r2 = true ->
        length (submissions evs) = 2%nat /\ fst out = Ok r2).
Proof.
  intros out c1. subst out c1.
  destruct (first_submission_clock_cases tp sl s) as [[-> [-> Hc]]|Hc].
  - (* no ratio: no price is read *)
    rewrite place_order_without_ratios, Hc.
    destruct (guarded_ladder_outcome inst lever
                (params_of inst side td sz ord ps None) sz None None None w s)
      as [[H1 H2]|[p2 [H1 H2]]].
    + eexists. split; [exact H2|]. simpl.
      split; [lia|]. split; [intros; lia|]. intros; discriminate.
    + eexists. split; [exact H2|]. simpl.
      split; [lia|]. split; [intros _; exact H1|]. intros; discriminate.
  - rewrite Hc.
    destruct (market_ticker w (clock s)) as [p|] eqn:Hp.
    + rewrite (place_order_with_ratio _ _ _ _ _ _ _ _ _ _ _ _ _ p Hc Hp).
      set (attach := build_attach_algo p ps side tp sl tpt slt).
      set (params := params_of inst side td sz ord ps (Some attach)).
      set (s0 := record_call (EGetTicker inst) s).
      destruct (guarded_ladder_outcome inst lever params sz tp (Some attach) (Some p) w s0)
        as [[H1 H2]|[p2 [H1 H2]]].
      * exists [EGetTicker inst; ETradePlaceOrder params].
        split; [rewrite H2; unfold s0; simpl; rewrite <- app_assoc; reflexivity|].
        simpl. split; [lia|]. split; [lia|].
        intros r1 r2 ratio last Htp Hlast Hnz Hr1 Ht1 Hr2 Ht2. exfalso.
        injection Hlast as <-.
        assert (Hrun := retry_ladder_tp_retry inst lever params sz tp attach p w s0 r1
                          (round6 (tp_price p (Qabs ratio) (is_long_of ps side)))
                          Hr1 Ht1).
        unfold try_except in H2.
        rewrite Hrun in H2;
          [| unfold attach, build_attach_algo; rewrite Htp; reflexivity
           | apply truthy_true; assumption].
        rewrite trade_call_run in H2. simpl in H2.
        change (clock s0) with (S (clock s)) in H2. rewrite Hr2 in H2. simpl in H2.
        rewrite <- app_assoc in H2. apply app_inv_head in H2. discriminate.
      * exists [EGetTicker inst; ETradePlaceOrder params; ETradePlaceOrder p2].
        split; [rewrite H2; unfold s0; simpl; rewrite <- app_assoc; reflexivity|].
        simpl. split; [lia|]. split; [intros _; exact H1|].
        intros r1 r2 ratio last _ _ _ _ _ Hr2 _. split; [reflexivity|].
        rewrite H1. change (clock s0) with (S (clock s)). rewrite Hr2. reflexivity.
    + rewrite (place_order_price_fault _ _ _ _ _ _ _ _ _ _ _ _ _ Hc Hp).
      exists [EGetTicker inst]. simpl. split; [reflexivity|].
      split; [lia|]. split; [discriminate|].
      intros; discriminate.
Qed.

(** *** Planning under a cached cap *)

Lemma extends_by_refl ok s : extends_by ok s s.
Proof. exists []. rewrite app_nil_r. split; reflexivity. Qed.

Lemma extends_by_trans ok a b c :
  extends_by ok a b -> extends_by ok b c -> extends_by ok a c.
Proof.
  intros [e1 [H1 F1]] [e2 [H2 F2]]. exists (e1 ++ e2)%list. split.
  - rewrite H2, H1, app_assoc. reflexivity.
  - rewrite forallb_app, F1, F2. reflexivity.
Qed.

Lemma extends_by_weaken (ok ok' : Event -> bool) s s' :
  (forall e, ok e = true -> ok' e = true) ->
  extends_by ok s s' -> extends_by ok' s s'.
Proof.
  intros Hw [evs [H F]]. exists evs. split; [assumption|].
  rewrite forallb_forall in *. auto.
Qed.

Lemma extends_by_one ok e s s' :
  trace s' = (trace s ++ [e])%list -> ok e = true -> extends_by ok s s'.
Proof. intros H E. exists [e]. split; [assumption|]. simpl. rewrite E. reflexivity. Qed.

Lemma unlogged_call e s : is_log e = false -> unlogged s (record_call e s).
Proof.
  intros H. apply (extends_by_one _ e); [reflexivity|].
  unfold not_log. rewrite H. reflexivity.
Qed.

Lemma unlogged_cache c s : unlogged s (set_cap_cache c s).
Proof. exists []. simpl. rewrite app_nil_r. split; reflexivity. Qed.

Lemma quiet_refl s : quiet s s.
Proof. split; [reflexivity | apply extends_by_refl]. Qed.

Lemma quiet_trans a b c : quiet a b -> quiet b c -> quiet a c.
Proof.
  intros [C1 U1] [C2 U2]. split.
  - unfold same_cache in *. congruence.
  - eapply extends_by_trans; eassumption.
Qed.

Lemma quiet_call e s : is_log e = false -> quiet s (record_call e s).
Proof. intros H. split; [reflexivity | apply unlogged_call, H]. Qed.

Lemma not_log_within cap e : not_log e = true -> plan_within cap e = true.
Proof. destruct e; simpl; auto; discriminate. Qed.

Lemma min_of_le x xs y : In y (x :: xs) -> min_of x xs <= y.
Proof.
  unfold min_of. revert x. induction xs as [|z zs IH]; intros x Hin; simpl.
  - destruct Hin as [->|[]]. lia.
  - assert (Hbase : forall a, fold_left Z.min zs a <= a).
    { clear. induction zs as [|b bs IHb]; intros a; simpl; [lia|].
      specialize (IHb (Z.min a b)). lia. }
    destruct Hin as [->|[->|Hin]].
    + specialize (Hbase (Z.min y z)). lia.
    + specialize (Hbase (Z.min x y)). lia.
    + apply IH. right. assumption.
Qed.

Lemma apply_caps_within cfg inst cap planned :
  truthy_opt (fixed_contracts inst) = false ->
  cap <> 0 ->
  apply_caps cfg inst (Some cap) planned <= cap.
Proof.
  intros Hfix Hcap. unfold apply_caps. rewrite Hfix.
  assert (Hin : In cap (truthy_candidates
                          [max_contracts inst; cfg_max_contracts (trading cfg); Some cap])).
  { assert (Ht : truthyZ cap = true)
      by (unfold truthyZ; apply negb_true_iff, Z.eqb_neq; assumption).
    simpl. rewrite Ht.
    destruct (max_contracts inst) as [a|]; [destruct (truthyZ a)|];
      (destruct (cfg_max_contracts (trading cfg)) as [b|]; [destruct (truthyZ b)|]);
      simpl; auto. }
  destruct (truthy_candidates _) as [|c cs]; [contradiction|].
  pose proof (min_of_le c cs cap Hin).
  destruct (min_of c cs <? planned) eqn:B; [lia|].
  apply Z.ltb_ge in B. lia.
Qed.

(** One step of a computation that is [quiet], followed by a continuation
    that plans within the cap from wherever the step ends. *)
Lemma plan_step_quiet {A B} (m : M A) (k : A -> M B) cap w s :
  keeps quiet m ->
  (forall a s1, same_cache s s1 -> extends_by (plan_within cap) s1 (snd (k a w s1))) ->
  extends_by (plan_within cap) s (snd (bind m k w s)).
Proof.
  intros Hm Hk. unfold bind. destruct (Hm w s) as [Hc Hu].
  apply (extends_by_weaken _ (plan_within cap)) in Hu; [|apply not_log_within].
  destruct (m w s) as [[a|e|] s1]; simpl in *; try assumption.
  eapply extends_by_trans; [exact Hu | apply Hk, Hc].
Qed.

Lemma bind_get_cached_position_cap {B} inst l (k : option Z -> M B) w s :
  bind (get_cached_position_cap inst (Some l)) k w s = k (cap_cache s !! (inst, l)) w s.
Proof. reflexivity. Qed.

Lemma bind_log {B} e (k : unit -> M B) w s :
  bind (log e) k w s = k tt w (record_log e s).
Proof. reflexivity. Qed.

Ltac quiet_side :=
  first [exact quiet_refl | exact quiet_trans | exact quiet_call].

Lemma open_position_plans_within_cap ai cfg inst dry candles w s cap :
  cap <> 0 ->
  cap_cache s !!
    (inst_id inst, truthy_or truthyZ (leverage inst) (default_leverage (trading cfg)))
    = Some cap ->
  truthy_opt (fixed_contracts inst) = false ->
  extends_by (plan_within cap) s (snd (open_position ai cfg inst dry candles w s)).
Proof.
  intros Hcap Hcache Hfix. unfold open_position.
  apply plan_step_quiet.
  { destruct candles; [apply keeps_get_candles | apply keeps_ret]; quiet_side. }
  intros candles' s1 C1.
  apply plan_step_quiet; [apply keeps_decide_direction; quiet_side|].
  intros direction s2 C2.
  apply plan_step_quiet; [apply keeps_get_position_mode; quiet_side|].
  intros mode s3 C3. cbv zeta.
  apply plan_step_quiet; [apply keeps_get_usdt_balance; quiet_side|].
  intros balance s4 C4.
  destruct (Qle_bool balance 0); [apply extends_by_refl|].
  apply plan_step_quiet; [apply keeps_plan_size_from_notional; quiet_side|].
  intros sz_plan s5 C5.
  unfold same_cache in *.
  assert (Hc5 : cap_cache s5 !!
                  (inst_id inst,
                   truthy_or truthyZ (leverage inst) (default_leverage (trading cfg)))
                = Some cap) by (rewrite C5, C4, C3, C2, C1; exact Hcache).
  rewrite bind_get_cached_position_cap, Hc5. cbv zeta. rewrite bind_log.
  match goal with
  | |- extends_by _ _ (snd (_ w ?mid)) => apply (extends_by_trans _ _ mid)
  end.
  - eapply extends_by_one; [reflexivity|].
    simpl. apply Z.leb_le. apply apply_caps_within; assumption.
  - destruct dry; [apply extends_by_refl|].
    apply (extends_by_weaken not_log); [apply not_log_within|].
    match goal with
    | |- extends_by _ ?s0 (snd (?m w ?s0)) =>
        change (unlogged s0 (snd (m w s0))); generalize w s0;
        change (keeps unlogged m)
    end.
    apply keeps_bind; [exact (extends_by_trans not_log) | |intros ?].
    + apply keeps_set_leverage;
        first [exact (extends_by_refl not_log) | exact (extends_by_trans not_log)
              | exact unlogged_call].
    + apply keeps_bind; [exact (extends_by_trans not_log) | |intros ?].
      * apply keeps_place_order;
          first [exact (extends_by_refl not_log) | exact (extends_by_trans not_log)
                | exact unlogged_call | exact unlogged_cache].
      * apply keeps_ret. exact (extends_by_refl not_log).
Qed.

(** *** A size-cap rejection *)

Lemma truthyZ_true z : z <> 0 -> truthyZ z = true.
Proof. intros H. unfold truthyZ. apply negb_true_iff, Z.eqb_neq, H. Qed.

Lemma parse_cap_of_figure msg fig cap :
  first_contracts_figure msg "" = Some fig ->
  int_without_commas fig = Some cap ->
  parse_cap msg = Some cap.
Proof. intros H1 H2. unfold parse_cap. rewrite H1, H2. reflexivity. Qed.

Lemma cap_rung_capped inst l params q result item cap w s :
  first_item result = Some item ->
  sCode item = "51004" ->
  parse_cap (sMsg item) = Some cap ->
  cap <> 0 -> int q <> 0 -> inst <> "" -> l <> 0 ->
  let s1 := set_cap_cache (<[(inst, l) := cap]> (cap_cache s)) s in
  let n := Z.max 1 (Z.min (int q) cap) in
  cap_rung inst (Some l) params (Some q) result w s =
    if n =? int q then (Ok result, s1) else trade_call (with_sz params n) w s1.
Proof.
  intros Hitem Hcode Hparse Hcap Hq Hinst Hl s1 n.
  unfold cap_rung. rewrite Hitem, Hcode, Hparse.
  change (String.eqb "51004" "51004") with true. cbv iota beta.
  change (int_float (Some q)) with (Some (int q)).
  unfold truthy_opt. rewrite (truthyZ_true cap Hcap), (truthyZ_true (int q) Hq).
  cbv iota beta. simpl andb. cbv iota.
  unfold update_position_cap.
  apply String.eqb_neq in Hinst.
  rewrite Hinst, (truthyZ_true l Hl), (truthyZ_true cap Hcap). simpl negb.
  simpl andb. cbv iota.
  unfold bind, modify, ret.
  change (default 0 (Some (int q))) with (int q).
  change (default 0 (Some cap)) with cap. fold n. fold s1.
  assert (Hn : truthyZ n = true) by (apply truthyZ_true; unfold n; lia).
  rewrite Hn. simpl andb.
  destruct (n =? int q); simpl; [|reflexivity].
  unfold margin_rung. rewrite Hitem, Hcode. reflexivity.
Qed.

Lemma retry_ladder_cap_rejection inst lever params sz tp attach last w s result :
  trade_place_order w (clock s) = TradeReturns result ->
  is_tp_rejection result = false ->
  retry_ladder inst lever params sz tp attach last w s =
    cap_rung inst lever params sz result w (record_call (ETradePlaceOrder params) s).
Proof.
  intros Hr Htp. unfold retry_ladder, bind. rewrite trade_call_run, Hr. simpl.
  rewrite Htp. reflexivity.
Qed.

(** The ladder on a size-cap rejection naming [cap]: the state it leaves and
    the submissions it has made. *)
Lemma guarded_ladder_capped inst l params q tp attach last w s result item cap :
  trade_place_order w (clock s) = TradeReturns result ->
  is_tp_rejection result = false ->
  first_item result = Some item ->
  sCode item = "51004" ->
  parse_cap (sMsg item) = Some cap ->
  cap <> 0 -> int q <> 0 -> inst <> "" -> l <> 0 ->
  let out := try_except (retry_ladder inst (Some l) params (Some q) tp attach last)
               any_exception error_dict w s in
  let n := Z.max 1 (Z.min (int q) cap) in
  cap_cache (snd out) = <[(inst, l) := cap]> (cap_cache s) /\
  trace (snd out) =
    (trace s ++ ETradePlaceOrder params ::
       (if n =? int q then [] else [ETradePlaceOrder (with_sz params n)]))%list.
Proof.
  intros Hr Htp Hitem Hcode Hparse Hcap Hq Hinst Hl out n. subst out.
  unfold try_except.
  rewrite (retry_ladder_cap_rejection _ _ _ _ _ _ _ _ _ _ Hr Htp).
  rewrite (cap_rung_capped inst l params q result item cap w _
             Hitem Hcode Hparse Hcap Hq Hinst Hl).
  fold n. destruct (n =? int q).
  - simpl. split; reflexivity.
  - rewrite trade_call_run.
    destruct (reply_result _) as [r|e|]; simpl;
      (split; [reflexivity | rewrite <- app_assoc; reflexivity]).
Qed.

(** Of several figures the first one is parsed: on a message that names the
    order amount before the maximum, the cached cap is the order amount
    (2000), not the maximum (1,500) that the comment at line 352 and the
    fallback pattern are after. *)
Lemma first_figure_is_what_gets_cached :
  let out := place_order "DOGE-USDT-SWAP" "buy" "cross" (Some 3000%Q) "market" "net"
               (Some (2 # 100)%Q) (Some (1 # 100)%Q) "last" "last" (Some 100)
               (rejecting_world "51004" two_figures_msg) start in
  contains "1,500(contracts)" two_figures_msg = true /\
  cap_cache (snd out) !! ("DOGE-USDT-SWAP", 100) = Some 2000 /\
  cap_cache (snd out) !! ("DOGE-USDT-SWAP", 100) <> Some 1500 /\
  map sz (submissions (trace (snd out))) = [Some 3000%Q; Some 2000%Q] /\
  plans (trace (snd (open_position HeuristicAIClient big_cfg doge true []
                       (rejecting_world "51004" two_figures_msg) (snd out))))
    = [2000].
Proof.
  vm_compute. repeat split; try reflexivity. discriminate.
Qed.

Lemma first_figure_of_all (s : string) :
  forall run, first_contracts_figure s run = hd_error (contracts_figures s run).
Proof.
  induction s as [|c s IH]; intros run; [reflexivity|].
  cbn [first_contracts_figure contracts_figures].
  destruct (is_digit_or_comma c); [apply IH|].
  destruct (negb (String.eqb run "") && String.prefix "(contracts)" (String c s));
    [reflexivity | apply IH].
Qed.

(** C4 fails as stated: the text ["1,500(contracts)"] also occurs inside the
    figure ["11,500(contracts)"]. The cap such a message names is 11500, and
    that is what is cached, what the resubmission is sized with and what the
    next plan for the pair is held to (here 3333 contracts, above 1500). *)
Lemma contained_text_is_not_the_figure :
  let out := place_order "DOGE-USDT-SWAP" "buy" "cross" (Some 20000%Q) "market" "net"
               (Some (2 # 100)%Q) (Some (1 # 100)%Q) "last" "last" (Some 100)
               (rejecting_world "51004" longer_figure_msg) start in
  contains "1,500(contracts)" longer_figure_msg = true /\
  cap_cache (snd out) !! ("DOGE-USDT-SWAP", 100) = Some 11500 /\
  cap_cache (snd out) !! ("DOGE-USDT-SWAP", 100) <> Some 1500 /\
  map sz (submissions (trace (snd out))) = [Some 20000%Q; Some 11500%Q] /\
  plans (trace (snd (open_position HeuristicAIClient big_cfg doge true []
                       (rejecting_world "51004" longer_figure_msg) (snd out))))
    = [3333].
Proof.
  vm_compute. repeat split; try reflexivity. discriminate.
Qed.

(** C4, amended. If the first answer to [place_order] is a 51004 rejection
    that is not also read as a TP-direction rejection, the only figure
    directly followed by ["(contracts)"] in its message is ["1,500"], the
    instrument id is not empty, the leverage passed is neither null nor zero
    and the requested size is a number whose integer part is not zero, then:
    after the call the cache maps (instrument, leverage) to 1500; besides the
    original submission there is one resubmission, of size
    [max(1, min(requested, 1500))], exactly when that size differs from the
    requested one; and an [open_position] for the same pair with
    [fixed_contracts] unset, run in any state whose cache holds that entry,
    plans at most 1500 contracts. *)
Theorem cap_rejection_is_cached
    (inst side td ord ps tpt slt : string) (q : Q) (tp sl : option Q) (l : Z)
    (w : World) (s : State) (result : ApiResult) (item : Item) :
  inst <> "" -> l <> 0 -> int q <> 0 ->
  (first_submission_clock tp sl s = S (clock s) ->
   exists p, market_ticker w (clock s) = Some p) ->
  trade_place_order w (first_submission_clock tp sl s) = TradeReturns result ->
  is_tp_rejection result = false ->
  first_item result = Some item ->
  sCode item = "51004" ->
  contracts_figures (sMsg item) "" = ["1,500"] ->
  let out := place_order inst side td (Some q) ord ps tp sl tpt slt (Some l) w s in
  let new_sz := Z.max 1 (Z.min (int q) 1500) in
  cap_cache (snd out) !! (inst, l) = Some 1500 /\
  (exists evs params,
      trace (snd out) = (trace s ++ evs)%list /\
      submissions evs =
        if new_sz =? int q then [params] else [params; with_sz params new_sz]) /\
  (forall ai cfg ic dry candles w2 s2,
      cap_cache s2 !! (inst, l) = Some 1500 ->
      inst_id ic = inst ->
      truthy_or truthyZ (leverage ic) (default_leverage (trading cfg)) = l ->
      truthy_opt (fixed_contracts ic) = false ->
      extends_by (plan_within 1500) s2
        (snd (open_position ai cfg ic dry candles w2 s2))).
Proof.
  intros Hinst Hl Hq Hprice Hr Htp Hitem Hcode Hfig out new_sz.
  assert (Hfirst : first_contracts_figure (sMsg item) "" = Some "1,500")
    by (rewrite first_figure_of_all, Hfig; reflexivity).
  assert (Hparse : parse_cap (sMsg item) = Some 1500)
    by (apply (parse_cap_of_figure _ "1,500"); [exact Hfirst | reflexivity]).
  assert (H1500 : 1500 <> 0) by lia.
  split; [|split].
  - subst out.
    destruct (first_submission_clock_cases tp sl s) as [[-> [-> Hc]]|Hc].
    + rewrite place_order_without_ratios. rewrite Hc in Hr.
      destruct (guarded_ladder_capped inst l
                  (params_of inst side td (Some q) ord ps None) q None None None
                  w s result item 1500 Hr Htp Hitem Hcode Hparse H1500 Hq Hinst Hl)
        as [Hcache _].
      rewrite Hcache. apply lookup_insert_eq.
    + destruct (Hprice Hc) as [p Hp]. rewrite Hc in Hr.
      rewrite (place_order_with_ratio _ _ _ _ _ _ _ _ _ _ _ _ _ p Hc Hp).
      match goal with
      | |- cap_cache (snd (try_except (retry_ladder _ _ ?pa _ _ ?att ?la) _ _ _ ?s0))
             !! _ = _ =>
          destruct (guarded_ladder_capped inst l pa q tp att la w s0 result item 1500
                      Hr Htp Hitem Hcode Hparse H1500 Hq Hinst Hl) as [Hcache _]
      end.
      rewrite Hcache. apply lookup_insert_eq.
  - subst out. fold new_sz.
    destruct (first_submission_clock_cases tp sl s) as [[-> [-> Hc]]|Hc].
    + rewrite place_order_without_ratios. rewrite Hc in Hr.
      destruct (guarded_ladder_capped inst l
                  (params_of inst side td (Some q) ord ps None) q None None None
                  w s result item 1500 Hr Htp Hitem Hcode Hparse H1500 Hq Hinst Hl)
        as [_ Htrace].
      eexists _, _. split; [exact Htrace|]. fold new_sz.
      destruct (new_sz =? int q); reflexivity.
    + destruct (Hprice Hc) as [p Hp]. rewrite Hc in Hr.
      rewrite (place_order_with_ratio _ _ _ _ _ _ _ _ _ _ _ _ _ p Hc Hp).
      match goal with
      | |- exists _ _, trace (snd (try_except (retry_ladder _ _ ?pa _ _ ?att ?la) _ _ _ ?s0))
                       = _ /\ _ =>
          destruct (guarded_ladder_capped inst l pa q tp att la w s0 result item 1500
                      Hr Htp Hitem Hcode Hparse H1500 Hq Hinst Hl) as [_ Htrace]
      end.
      eexists (EGetTicker inst :: _), _. split.
      * rewrite Htrace. simpl. rewrite <- app_assoc. reflexivity.
      * fold new_sz. destruct (new_sz =? int q); reflexivity.
  - intros ai cfg ic dry candles w2 s2 Hcache <- <- Hfix.
    apply open_position_plans_within_cap; assumption.
Qed.

Lemma cap_rejection_is_cached_witness :
  cap_cache
    (snd (place_order "DOGE-USDT-SWAP" "buy" "cross" (Some 3000%Q) "market" "net"
            (Some (2 # 100)%Q) (Some (1 # 100)%Q) "last" "last" (Some 100)
            (rejecting_world "51004" cap_msg) start))
    !! ("DOGE-USDT-SWAP", 100) = Some 1500.
Proof.
  refine (proj1 (cap_rejection_is_cached
                   "DOGE-USDT-SWAP" "buy" "cross" "market" "net" "last" "last"
                   3000 (Some (2 # 100)%Q) (Some (1 # 100)%Q) 100
                   (rejecting_world "51004" cap_msg) start
                   (Dict "1" "" [{| ordId := ""; sCode := "51004"; sMsg := cap_msg |}])
                   {| ordId := ""; sCode := "51004"; sMsg := cap_msg |}
                   _ _ _ _ _ _ _ _ _)).
  - discriminate.
  - discriminate.
  - discriminate.
  - intros _. exists 30%Q. reflexivity.
  - reflexivity.
  - reflexivity.
  - reflexivity.
  - reflexivity.
  - reflexivity.
Defined.

Lemma place_order_single_shot_witness :
  let out := place_order "DOGE-USDT-SWAP" "buy" "cross" (Some 10%Q) "market" "net"
               (Some (2 # 100)%Q) (Some (1 # 100)%Q) "last" "last" (Some 100)
               (rejecting_world "51052" tp_rejection_msg) start in
  exists evs,
    trace (snd out) = (trace start ++ evs)%list /\
    length (submissions evs) = 2%nat /\
    fst out = Ok (Dict "1" ""
                    [{| ordId := ""; sCode := "51052"; sMsg := tp_rejection_msg |}]).
Proof.
  intros out.
  destruct (place_order_single_shot
              "DOGE-USDT-SWAP" "buy" "cross" (Some 10%Q) "market" "net"
              (Some (2 # 100)%Q) (Some (1 # 100)%Q) "last" "last" (Some 100)
              (rejecting_world "51052" tp_rejection_msg) start)
    as [evs [Ht [_ [_ Htp]]]].
  exists evs. split; [exact Ht|].
  apply (Htp (Dict "1" "" [{| ordId := ""; sCode := "51052"; sMsg := tp_rejection_msg |}])
             (Dict "1" "" [{| ordId := ""; sCode := "51052"; sMsg := tp_rejection_msg |}])
             (2 # 100)%Q 30%Q);
    first [reflexivity | discriminate].
Defined.

(** *** What the order carries *)

(** The take-profit trigger of the first submission is [tp_px] written with
    six decimals. *)
Lemma place_order_attaches_tp inst side td sz ord ps ratio sl tpt slt lever w s p :
  market_ticker w (clock s) = Some p ->
  let out := place_order inst side td sz ord ps (Some ratio) sl tpt slt lever w s in
  exists params more,
    trace (snd out) =
      (trace s ++ EGetTicker inst :: ETradePlaceOrder params :: more)%list /\
    option_map tpTriggerPx (attachAlgoOrds params) =
      Some (Some (round6 (tp_price p (Qabs ratio) (is_long_of ps side)))).
Proof.
  intros Hp out. subst out.
  assert (Hc : first_submission_clock (Some ratio) sl s = S (clock s))
    by (destruct sl; reflexivity).
  rewrite (place_order_with_ratio _ _ _ _ _ _ _ _ _ _ _ _ _ p Hc Hp).
  match goal with
  | |- context [try_except (retry_ladder _ _ ?pa _ _ ?att ?la) _ _ _ ?s0] =>
      destruct (guarded_ladder_outcome inst lever pa sz (Some ratio) att la w s0)
        as [[_ H]|[p2 [_ H]]]
  end.
  - eexists _, []. split;
      [rewrite H; simpl; rewrite <- app_assoc; reflexivity | reflexivity].
  - eexists _, [_]. split;
      [rewrite H; simpl; rewrite <- app_assoc; reflexivity | reflexivity].
Qed.

(** C5, on the code. A long order with a take-profit ratio of 2 % at a last
    price of 0.00001: the price computed is 0.0000102, strictly beyond the
    last price, but the trigger the order carries is that price written with
    six decimals, 0.000010, which is the last price itself and not strictly
    beyond it. *)
Theorem tp_trigger_can_equal_last :
  let last := (1 # 100000)%Q in
  let out := place_order "PEPE-USDT-SWAP" "buy" "cross" (Some 10%Q) "market" "long"
               (Some (2 # 100)%Q) (Some (1 # 100)%Q) "last" "last" (Some 10)
               (calm_world last) start in
  (last < tp_price last (Qabs (2 # 100)) (is_long_of "long" "buy"))%Q /\
  exists p trigger,
    submissions (trace (snd out)) = [p] /\
    posSide p = Some "long" /\
    option_map tpTriggerPx (attachAlgoOrds p) = Some (Some trigger) /\
    (trigger == last)%Q /\ ~ (last < trigger)%Q.
Proof.
  split; [reflexivity|].
  eexists _, _. split; [vm_compute; reflexivity|].
  split; [reflexivity|]. split; [vm_compute; reflexivity|].
  split; [reflexivity|]. intros H. vm_compute in H. discriminate.
Qed.

(** Six decimals are not always enough to keep the trigger beyond the last
    price: at a last price of 0.0000001 the long trigger 0.000000102 is
    written as 0.000000. *)
Lemma six_decimals_can_lose_the_margin :
  let last := (1 # 10000000)%Q in
  let tp_px := tp_price last (Qabs (2 # 100)) (is_long_of "long" "buy") in
  (last < tp_px)%Q /\ (round6 tp_px == 0)%Q.
Proof. split; reflexivity. Qed.

(** * Further properties of the code *)

(** ** The position-cap cache *)

(** X3. [update_position_cap] followed by [get_cached_position_cap]: with a
    non-empty instrument id and a non-zero leverage and cap, the pair just
    written reads back as the cap and every other pair reads as before; with
    an empty instrument id, or a leverage or cap that is null or zero, the
    update leaves the process state as it was. *)
Theorem cap_cache_round_trip (inst : string) (lever cap : option Z) (w : World) (s : State) :
  (forall l c inst' l',
      lever = Some l -> cap = Some c -> inst <> "" -> l <> 0 -> c <> 0 ->
      bind (update_position_cap inst lever cap)
        (fun _ => get_cached_position_cap inst' (Some l')) w s =
        (Ok (if decide ((inst', l') = (inst, l)) then Some c
             else cap_cache s !! (inst', l')),
         set_cap_cache (<[(inst, l) := c]> (cap_cache s)) s)) /\
  (inst = "" \/ truthy_opt lever = false \/ truthy_opt cap = false ->
   update_position_cap inst lever cap w s = (Ok tt, s)).
Proof.
  split.
  - intros l c inst' l' -> -> Hinst Hl Hc.
    unfold update_position_cap, get_cached_position_cap.
    apply String.eqb_neq in Hinst.
    rewrite Hinst, (truthyZ_true l Hl), (truthyZ_true c Hc). mrun. simpl.
    destruct (decide ((inst', l') = (inst, l))) as [E|E].
    + rewrite E, lookup_insert_eq. reflexivity.
    + rewrite lookup_insert_ne by congruence. reflexivity.
  - intros H. unfold update_position_cap.
    destruct lever as [l|], cap as [c|]; try reflexivity.
    destruct H as [->|[H|H]].
    + reflexivity.
    + simpl in H. rewrite H, andb_false_r. reflexivity.
    + simpl in H. rewrite H, andb_false_r. reflexivity.
Qed.

Lemma cap_cache_round_trip_witness :
  bind (update_position_cap "BTC-USDT-SWAP" (Some 100) (Some 1500))
    (fun _ => get_cached_position_cap "BTC-USDT-SWAP" (Some 100)) (calm_world 1) start =
    (Ok (Some 1500),
     set_cap_cache (<[("BTC-USDT-SWAP", 100) := 1500]> (cap_cache start)) start).
Proof.
  refine (proj1 (cap_cache_round_trip "BTC-USDT-SWAP" (Some 100) (Some 1500)
                   (calm_world 1) start)
            100 1500 "BTC-USDT-SWAP" 100 eq_refl eq_refl _ _ _); discriminate.
Defined.

Lemma same_cache_refl s : same_cache s s.
Proof. reflexivity. Qed.

Lemma same_cache_trans a b c : same_cache a b -> same_cache b c -> same_cache a c.
Proof. unfold same_cache. congruence. Qed.

Lemma same_cache_call e s : is_log e = false -> same_cache s (record_call e s).
Proof. reflexivity. Qed.

Lemma trade_call_same_cache p w s : cap_cache (snd (trade_call p w s)) = cap_cache s.
Proof. rewrite trade_call_run. reflexivity. Qed.

Lemma margin_rung_same_cache params sz result w s :
  cap_cache (snd (margin_rung params sz result w s)) = cap_cache s.
Proof.
  apply (keeps_margin_rung same_cache same_cache_refl same_cache_trans same_cache_call).
Qed.

Lemma rung_tail_same_cache (b : bool) params n sz result w s :
  cap_cache (snd ((if b then trade_call (with_sz params n)
                   else margin_rung params sz result) w s)) = cap_cache s.
Proof.
  destruct b; [apply trade_call_same_cache | apply margin_rung_same_cache].
Qed.

Lemma digits_value_nonneg s acc v :
  (forall a, acc = Some a -> 0 <= a) -> digits_value s acc = Some v -> 0 <= v.
Proof.
  revert acc. induction s as [|c s IH]; intros acc Hacc H; simpl in H.
  - apply Hacc, H.
  - destruct (is_digit c).
    + eapply IH; [|exact H].
      intros a Ha. inversion Ha; subst a.
      assert (0 <= default 0 acc).
      { destruct acc as [a0|]; simpl; [apply Hacc; reflexivity | lia]. }
      lia.
    + apply (IH acc Hacc H).
Qed.

Lemma parse_cap_nonneg msg c : parse_cap msg = Some c -> 0 <= c.
Proof.
  unfold parse_cap, maximum_position_amount, int_without_commas.
  destruct (first_contracts_figure msg "") as [m|].
  - destruct (digits_value m None) as [c0|] eqn:E.
    + intros H. injection H as <-.
      apply (digits_value_nonneg m None c0); [discriminate | exact E].
    + destruct (after_first _ _) as [tail|]; [|discriminate].
      destruct (from_first_digit tail) as [t|]; [|discriminate].
      apply digits_value_nonneg. discriminate.
  - destruct (after_first _ _) as [tail|]; [|discriminate].
    destruct (from_first_digit tail) as [t|]; [|discriminate].
    apply digits_value_nonneg. discriminate.
Qed.

Lemma truthyZ_nonzero z : truthyZ z = true -> z <> 0.
Proof. unfold truthyZ. rewrite negb_true_iff. apply Z.eqb_neq. Qed.

Lemma update_position_cap_cases inst lever cap w s :
  update_position_cap inst lever cap w s = (Ok tt, s) \/
  exists l c,
    lever = Some l /\ cap = Some c /\ inst <> "" /\ l <> 0 /\ c <> 0 /\
    update_position_cap inst lever cap w s =
      (Ok tt, set_cap_cache (<[(inst, l) := c]> (cap_cache s)) s).
Proof.
  unfold update_position_cap.
  destruct lever as [l|], cap as [c|]; try (left; reflexivity).
  destruct (negb (String.eqb inst "")) eqn:Ei; [|left; reflexivity].
  destruct (truthyZ l) eqn:El; [|left; reflexivity].
  destruct (truthyZ c) eqn:Ec; [|left; reflexivity].
  right. exists l, c. repeat split.
  - apply negb_true_iff, String.eqb_neq in Ei. exact Ei.
  - apply truthyZ_nonzero, El.
  - apply truthyZ_nonzero, Ec.
Qed.

Lemma cap_rung_cache inst lever params sz result w s :
  cache_step inst lever s (snd (cap_rung inst lever params sz result w s)).
Proof.
  unfold cap_rung.
  destruct (first_item result) as [item|];
    [destruct (String.eqb (sCode item) "51004")|];
    try (left; apply margin_rung_same_cache).
  destruct (truthy_opt (parse_cap (sMsg item)) && truthy_opt (int_float sz)) eqn:B.
  - destruct (update_position_cap_cases inst lever (parse_cap (sMsg item)) w s)
      as [E|[l [c [Hl [Hc [Hi [Hl0 [Hc0 E]]]]]]]];
      unfold bind; rewrite E; unfold ret.
    + left. apply rung_tail_same_cache.
    + right. exists l, c. repeat split; try assumption.
      * pose proof (parse_cap_nonneg _ _ Hc). lia.
      * rewrite rung_tail_same_cache. reflexivity.
  - left. unfold bind.
    destruct (truthy_opt (int_float sz)); unfold ret;
      first [apply rung_tail_same_cache | apply margin_rung_same_cache].
Qed.

Lemma guarded_ladder_cache inst lever params sz tp attach last w s :
  cache_step inst lever s
    (snd (try_except (retry_ladder inst lever params sz tp attach last)
            any_exception error_dict w s)).
Proof.
  assert (H : cache_step inst lever s
                (snd (retry_ladder inst lever params sz tp attach last w s))).
  { unfold retry_ladder, bind. rewrite trade_call_run.
    destruct (reply_result (trade_place_order w (clock s))) as [result|e|];
      try (left; reflexivity).
    destruct (tp_retry_fires (is_tp_rejection result) attach last) as [[[a orig] l]|].
    - left. rewrite trade_call_same_cache. reflexivity.
    - exact (cap_rung_cache inst lever params sz result w
               (record_call (ETradePlaceOrder params) s)). }
  unfold try_except.
  destruct (retry_ladder inst lever params sz tp attach last w s) as [[r|e|] s1];
    exact H.
Qed.

(** X4. Whatever the exchange answers, [place_order] leaves the position-cap
    cache as it was or writes one entry, a positive cap, at the pair
    (instrument, leverage) it was called with; so a cache that holds only
    positive caps still does afterwards. *)
Theorem place_order_cache_effect
    (inst side td : string) (sz : option Q) (ord ps : string) (tp sl : option Q)
    (tpt slt : string) (lever : option Z) (w : World) (s : State) :
  let s' := snd (place_order inst side td sz ord ps tp sl tpt slt lever w s) in
  cache_step inst lever s s' /\ (caps_positive s -> caps_positive s').
Proof.
  intros s'.
  assert (H : cache_step inst lever s s').
  { subst s'.
    destruct (first_submission_clock_cases tp sl s) as [[-> [-> Hc]]|Hc].
    - rewrite place_order_without_ratios. apply guarded_ladder_cache.
    - destruct (market_ticker w (clock s)) as [p|] eqn:Hp.
      + rewrite (place_order_with_ratio _ _ _ _ _ _ _ _ _ _ _ _ _ p Hc Hp).
        exact (guarded_ladder_cache inst lever _ sz tp _ _ w
                 (record_call (EGetTicker inst) s)).
      + rewrite (place_order_price_fault _ _ _ _ _ _ _ _ _ _ _ _ _ Hc Hp).
        left. reflexivity. }
  split; [exact H|].
  intros Hpos k v. destruct H as [H|[l [c [_ [_ [_ [Hc H]]]]]]]; rewrite H.
  - apply Hpos.
  - destruct (decide (k = (inst, l))) as [->|Hk].
    + rewrite lookup_insert_eq. intros E. injection E as <-. exact Hc.
    + rewrite lookup_insert_ne by congruence. apply Hpos.
Qed.

Lemma place_order_cache_effect_witness :
  caps_positive
    (snd (place_order "DOGE-USDT-SWAP" "buy" "cross" (Some 3000%Q) "market" "net"
            (Some (2 # 100)%Q) (Some (1 # 100)%Q) "last" "last" (Some 100)
            (rejecting_world "51004" cap_msg) start)).
Proof.
  apply (proj2 (place_order_cache_effect
                  "DOGE-USDT-SWAP" "buy" "cross" (Some 3000%Q) "market" "net"
                  (Some (2 # 100)%Q) (Some (1 # 100)%Q) "last" "last" (Some 100)
                  (rejecting_world "51004" cap_msg) start)).
  intros k v H. simpl in H. rewrite lookup_empty in H. discriminate.
Defined.

(** ** What [place_order] returns and raises *)

(** X5. [place_order] raises in one case only: a ratio was given and reading
    the last price failed; it then raises [NetworkError] before any
    submission. In every other case it returns, and what it returns is the
    exchange's answer to its first or second submission, an exception of the
    SDK at that submission being returned as the dict with code ["-1"] and no
    data. *)
Theorem place_order_raises_only_on_price_fault
    (inst side td : string) (sz : option Q) (ord ps : string) (tp sl : option Q)
    (tpt slt : string) (lever : option Z) (w : World) (s : State) :
  let out := place_order inst side td sz ord ps tp sl tpt slt lever w s in
  let c1 := first_submission_clock tp sl s in
  (c1 = S (clock s) /\ market_ticker w (clock s) = None /\
   out = (Raise NetworkError, record_call (EGetTicker inst) s)) \/
  ((c1 = clock s \/ market_ticker w (clock s) <> None) /\
   (fst out = Ok (answer_of (trade_place_order w c1)) \/
    fst out = Ok (answer_of (trade_place_order w (S c1))))).
Proof.
  intros out c1. subst out c1.
  destruct (first_submission_clock_cases tp sl s) as [[-> [-> Hc]]|Hc].
  - right. rewrite place_order_without_ratios, Hc. split; [left; reflexivity|].
    destruct (guarded_ladder_outcome inst lever
                (params_of inst side td sz ord ps None) sz None None None w s)
      as [[H _]|[p2 [H _]]]; auto.
  - rewrite Hc. destruct (market_ticker w (clock s)) as [p|] eqn:Hp.
    + right. rewrite (place_order_with_ratio _ _ _ _ _ _ _ _ _ _ _ _ _ p Hc Hp).
      split; [right; discriminate|].
      match goal with
      | |- context [try_except (retry_ladder _ _ ?pa _ _ ?att ?la) _ _ _ ?s0] =>
          destruct (guarded_ladder_outcome inst lever pa sz tp att la w s0)
            as [[H _]|[p2 [H _]]]
      end; auto.
    + left. rewrite (place_order_price_fault _ _ _ _ _ _ _ _ _ _ _ _ _ Hc Hp). auto.
Qed.

Lemma place_order_result inst sd td rq ord ps tp sl tpt slt lever w s :
  let out := place_order inst sd td rq ord ps tp sl tpt slt lever w s in
  let c1 := first_submission_clock tp sl s in
  fst out = Raise NetworkError \/
  fst out = Ok (answer_of (trade_place_order w c1)) \/
  fst out = Ok (answer_of (trade_place_order w (S c1))).
Proof.
  intros out c1. subst out c1.
  destruct (first_submission_clock_cases tp sl s) as [[-> [-> Hc]]|Hc].
  - right. rewrite place_order_without_ratios, Hc.
    destruct (guarded_ladder_outcome inst lever
                (params_of inst sd td rq ord ps None) rq None None None w s)
      as [[H _]|[p2 [H _]]]; auto.
  - rewrite Hc. destruct (market_ticker w (clock s)) as [p|] eqn:Hp.
    + right. rewrite (place_order_with_ratio _ _ _ _ _ _ _ _ _ _ _ _ _ p Hc Hp).
      match goal with
      | |- context [try_except (retry_ladder _ _ ?pa _ _ ?att ?la) _ _ _ ?s0] =>
          destruct (guarded_ladder_outcome inst lever pa rq tp att la w s0)
            as [[H _]|[p2 [H _]]]
      end; auto.
    + left. rewrite (place_order_price_fault _ _ _ _ _ _ _ _ _ _ _ _ _ Hc Hp).
      reflexivity.
Qed.

Lemma order_id_of_answer reply id :
  order_id_of (answer_of reply) = Some id ->
  exists msg item rest,
    reply = TradeReturns (Dict "0" msg (item :: rest)) /\ ordId item = id /\ id <> "".
Proof.
  destruct reply as [m|[|code msg [|item rest]]]; simpl; try discriminate.
  destruct (String.eqb code "0") eqn:Ec; [|discriminate].
  destruct (String.eqb (ordId item) "") eqn:Eo; simpl; [discriminate|].
  intros H. injection H as <-.
  apply String.eqb_eq in Ec. subst code. apply String.eqb_neq in Eo.
  exists msg, item, rest. auto.
Qed.

(** X6. An order id read off the result of [place_order] (code ["0"], first
    data item with a non-empty [ordId]) was issued by the exchange: it is the
    [ordId] of the success answer to the first or the second submission of
    that call. An SDK exception never yields an id. *)
Theorem place_order_id_comes_from_the_exchange
    (inst side td : string) (sz : option Q) (ord ps : string) (tp sl : option Q)
    (tpt slt : string) (lever : option Z) (w : World) (s : State)
    (r : ApiResult) (id : string) :
  fst (place_order inst side td sz ord ps tp sl tpt slt lever w s) = Ok r ->
  order_id_of r = Some id ->
  let c1 := first_submission_clock tp sl s in
  exists n msg item rest,
    (n = c1 \/ n = S c1) /\
    trade_place_order w n = TradeReturns (Dict "0" msg (item :: rest)) /\
    r = Dict "0" msg (item :: rest) /\ ordId item = id /\ id <> "".
Proof.
  intros Hr Hid c1.
  destruct (place_order_result inst side td sz ord ps tp sl tpt slt lever w s)
    as [E|[E|E]].
  - rewrite E in Hr. discriminate.
  - rewrite E in Hr. injection Hr as <-.
    destruct (order_id_of_answer _ _ Hid) as [msg [item [rest [Hrep [Ho Hne]]]]].
    exists c1, msg, item, rest. unfold c1. rewrite Hrep.
    repeat split; auto.
  - rewrite E in Hr. injection Hr as <-.
    destruct (order_id_of_answer _ _ Hid) as [msg [item [rest [Hrep [Ho Hne]]]]].
    exists (S c1), msg, item, rest. unfold c1. rewrite Hrep.
    repeat split; auto.
Qed.

Lemma place_order_id_comes_from_the_exchange_witness :
  exists n msg item rest,
    (n = 1%nat \/ n = 2%nat) /\
    trade_place_order filling_world n = TradeReturns (Dict "0" msg (item :: rest)) /\
    ordId item = "12345".
Proof.
  destruct (place_order_id_comes_from_the_exchange
              "DOGE-USDT-SWAP" "sell" "cross" (Some 5%Q) "market" "short"
              (Some (2 # 100)%Q) (Some (1 # 100)%Q) "last" "last" (Some 100)
              filling_world start
              (Dict "0" "" [{| ordId := "12345"; sCode := "0"; sMsg := "" |}])
              "12345" eq_refl eq_refl)
    as [n [msg [item [rest [Hn [Hrep [_ [Hid _]]]]]]]].
  exists n, msg, item, rest. auto.
Defined.

(** ** The size rungs of the ladder *)

Lemma place_order_as_ladder inst side td sz ord ps tp sl tpt slt lever w s :
  price_is_read tp sl w s ->
  exists attach last s0,
    place_order inst side td sz ord ps tp sl tpt slt lever w s =
      try_except
        (retry_ladder inst lever (params_of inst side td sz ord ps attach) sz tp
           attach last)
        any_exception error_dict w s0 /\
    clock s0 = first_submission_clock tp sl s /\
    cap_cache s0 = cap_cache s /\
    (exists pre, trace s0 = (trace s ++ pre)%list /\ submissions pre = []).
Proof.
  intros Hprice.
  destruct (first_submission_clock_cases tp sl s) as [[-> [-> Hc]]|Hc].
  - exists None, None, s. rewrite place_order_without_ratios, Hc.
    repeat split. exists []. rewrite app_nil_r. split; reflexivity.
  - destruct (Hprice Hc) as [p Hp].
    eexists _, _, (record_call (EGetTicker inst) s).
    rewrite (place_order_with_ratio _ _ _ _ _ _ _ _ _ _ _ _ _ p Hc Hp), Hc.
    repeat split. exists [EGetTicker inst]. split; reflexivity.
Qed.

Lemma guarded_ladder_on_size_rungs inst lever params sz tp attach last w s result :
  trade_place_order w (clock s) = TradeReturns result ->
  is_tp_rejection result = false ->
  try_except (retry_ladder inst lever params sz tp attach last)
    any_exception error_dict w s =
  try_except (cap_rung inst lever params sz result)
    any_exception error_dict w (record_call (ETradePlaceOrder params) s).
Proof.
  intros Hr Htp. unfold try_except.
  rewrite (retry_ladder_cap_rejection _ _ _ _ _ _ _ _ _ _ Hr Htp). reflexivity.
Qed.

Lemma guarded_trade_call (p : Params) w s :
  try_except (trade_call p) any_exception error_dict w s =
    (Ok (answer_of (trade_place_order w (clock s))), record_call (ETradePlaceOrder p) s).
Proof.
  unfold try_except. rewrite trade_call_run.
  destruct (trade_place_order w (clock s)); reflexivity.
Qed.

Lemma margin_rung_other_code params sz result w s :
  (forall item, first_item result = Some item -> sCode item <> "51008") ->
  margin_rung params sz result w s = (Ok result, s).
Proof.
  intros H. unfold margin_rung.
  destruct (first_item result) as [item|]; [|reflexivity].
  specialize (H item eq_refl). apply String.eqb_neq in H. rewrite H. reflexivity.
Qed.

Lemma cap_rung_other_code inst lever params sz result w s :
  (forall item, first_item result = Some item -> sCode item <> "51004") ->
  cap_rung inst lever params sz result w s = margin_rung params sz result w s.
Proof.
  intros H. unfold cap_rung.
  destruct (first_item result) as [item|]; [|reflexivity].
  specialize (H item eq_refl). apply String.eqb_neq in H. rewrite H. reflexivity.
Qed.

(** X7. An answer that is neither read as a TP-direction rejection nor
    carries the code 51004 or 51008 -- a fill, or a rejection of any other
    kind -- is returned as it is after that single submission, and the cache
    is left alone. *)
Theorem place_order_returns_other_answers_at_once
    (inst side td : string) (sz : option Q) (ord ps : string) (tp sl : option Q)
    (tpt slt : string) (lever : option Z) (w : World) (s : State) (result : ApiResult) :
  price_is_read tp sl w s ->
  trade_place_order w (first_submission_clock tp sl s) = TradeReturns result ->
  is_tp_rejection result = false ->
  (forall item, first_item result = Some item ->
                sCode item <> "51004" /\ sCode item <> "51008") ->
  let out := place_order inst side td sz ord ps tp sl tpt slt lever w s in
  fst out = Ok result /\
  cap_cache (snd out) = cap_cache s /\
  exists evs p,
    trace (snd out) = (trace s ++ evs)%list /\ submissions evs = [p].
Proof.
  intros Hprice Hr Htp Hcode out. subst out.
  destruct (place_order_as_ladder inst side td sz ord ps tp sl tpt slt lever w s Hprice)
    as [attach [last [s0 [E [Hc [Hcache [pre [Hpre Hsub]]]]]]]].
  rewrite E. rewrite <- Hc in Hr.
  rewrite (guarded_ladder_on_size_rungs _ _ _ _ _ _ _ _ _ _ Hr Htp).
  unfold try_except.
  rewrite cap_rung_other_code by (intros item Hi; apply (Hcode item Hi)).
  rewrite margin_rung_other_code by (intros item Hi; apply (Hcode item Hi)).
  simpl. repeat split; [exact Hcache|].
  eexists (pre ++ [_])%list, _. split.
  - rewrite Hpre, app_assoc. reflexivity.
  - rewrite submissions_app, Hsub. reflexivity.
Qed.

Lemma place_order_returns_other_answers_at_once_witness :
  fst (place_order "DOGE-USDT-SWAP" "sell" "cross" (Some 5%Q) "market" "short"
         (Some (2 # 100)%Q) (Some (1 # 100)%Q) "last" "last" (Some 100)
         filling_world start)
    = Ok (Dict "0" "" [{| ordId := "12345"; sCode := "0"; sMsg := "" |}]).
Proof.
  refine (proj1 (place_order_returns_other_answers_at_once
                   "DOGE-USDT-SWAP" "sell" "cross" (Some 5%Q) "market" "short"
                   (Some (2 # 100)%Q) (Some (1 # 100)%Q) "last" "last" (Some 100)
                   filling_world start
                   (Dict "0" "" [{| ordId := "12345"; sCode := "0"; sMsg := "" |}])
                   _ eq_refl eq_refl _)).
  - intros _. exists 30%Q. reflexivity.
  - intros item H. injection H as <-. split; discriminate.
Defined.

Lemma margin_rung_fires params q result item w s :
  first_item result = Some item ->
  sCode item = "51008" ->
  margin_rung params (Some q) result w s =
    if 1 <? int q then trade_call (with_sz params (Z.max 1 (int q / 2))) w s
    else (Ok result, s).
Proof.
  intros Hitem Hcode. unfold margin_rung. rewrite Hitem, Hcode.
  change (String.eqb "51008" "51008") with true. cbv iota.
  change (int_float (Some q)) with (Some (int q)). cbv iota.
  destruct (1 <? int q) eqn:B.
  - apply Z.ltb_lt in B. rewrite truthyZ_true by lia. reflexivity.
  - rewrite andb_false_r. reflexivity.
Qed.

(** X8. On an insufficient-margin rejection (51008, not read as a
    TP-direction rejection) of a request whose size is a number: a size above
    1 is resubmitted once at half ([max(1, size // 2)], which is below the
    request), a size of 1 or less is not resubmitted and the rejection is
    returned; the cache is left alone in both cases. *)
Theorem place_order_halves_on_margin_rejection
    (inst side td : string) (q : Q) (ord ps : string) (tp sl : option Q)
    (tpt slt : string) (lever : option Z) (w : World) (s : State)
    (result : ApiResult) (item : Item) :
  price_is_read tp sl w s ->
  trade_place_order w (first_submission_clock tp sl s) = TradeReturns result ->
  is_tp_rejection result = false ->
  first_item result = Some item ->
  sCode item = "51008" ->
  let out := place_order inst side td (Some q) ord ps tp sl tpt slt lever w s in
  let new_sz := Z.max 1 (int q / 2) in
  cap_cache (snd out) = cap_cache s /\
  (exists evs p,
      trace (snd out) = (trace s ++ evs)%list /\
      submissions evs = if 1 <? int q then [p; with_sz p new_sz] else [p]) /\
  (1 < int q -> 1 <= new_sz < int q) /\
  (int q <= 1 -> fst out = Ok result).
Proof.
  intros Hprice Hr Htp Hitem Hcode out new_sz. subst out.
  destruct (place_order_as_ladder inst side td (Some q) ord ps tp sl tpt slt lever w s
              Hprice)
    as [attach [last [s0 [E [Hc [Hcache [pre [Hpre Hsub]]]]]]]].
  rewrite E. rewrite <- Hc in Hr.
  rewrite (guarded_ladder_on_size_rungs _ _ _ _ _ _ _ _ _ _ Hr Htp).
  assert (Hother : forall i, first_item result = Some i -> sCode i <> "51004").
  { intros i Hi. rewrite Hitem in Hi. injection Hi as <-. rewrite Hcode. discriminate. }
  unfold try_except. rewrite (cap_rung_other_code _ _ _ _ _ _ _ Hother).
  rewrite (margin_rung_fires _ _ _ _ _ _ Hitem Hcode). fold new_sz.
  destruct (1 <? int q) eqn:B.
  - apply Z.ltb_lt in B. rewrite trade_call_run.
    assert (Hhalf : 1 <= new_sz < int q).
    { unfold new_sz. pose proof (Z.div_lt (int q) 2 ltac:(lia) ltac:(lia)).
      assert (1 <= int q / 2) by (apply Z.div_le_lower_bound; lia). lia. }
    destruct (reply_result _) as [r|e|]; simpl;
      (split; [exact Hcache|]; split; [|split; [intros _; exact Hhalf | lia]];
       eexists (pre ++ [_; _])%list, _; split;
       [rewrite Hpre; rewrite <- !app_assoc; reflexivity
       |rewrite submissions_app, Hsub; reflexivity]).
  - apply Z.ltb_ge in B. simpl.
    split; [exact Hcache|]. split; [|split; [lia | reflexivity]].
    eexists (pre ++ [_])%list, _. split.
    + rewrite Hpre, app_assoc. reflexivity.
    + rewrite submissions_app, Hsub. reflexivity.
Qed.

Lemma place_order_halves_on_margin_rejection_witness :
  exists evs p,
    trace (snd (place_order "DOGE-USDT-SWAP" "buy" "cross" (Some 9%Q) "market" "net"
                  (Some (2 # 100)%Q) (Some (1 # 100)%Q) "last" "last" (Some 100)
                  (rejecting_world "51008" "Insufficient margin") start))
      = (trace start ++ evs)%list /\
    submissions evs = [p; with_sz p 4].
Proof.
  refine (proj1 (proj2 (place_order_halves_on_margin_rejection
                   "DOGE-USDT-SWAP" "buy" "cross" 9 "market" "net"
                   (Some (2 # 100)%Q) (Some (1 # 100)%Q) "last" "last" (Some 100)
                   (rejecting_world "51008" "Insufficient margin") start
                   (Dict "1" ""
                      [{| ordId := ""; sCode := "51008"; sMsg := "Insufficient margin" |}])
                   {| ordId := ""; sCode := "51008"; sMsg := "Insufficient margin" |}
                   _ eq_refl eq_refl eq_refl eq_refl))).
  intros _. exists 30%Q. reflexivity.
Defined.

Lemma cap_rung_halves inst lever params q result item w s :
  first_item result = Some item ->
  sCode item = "51004" ->
  truthy_opt (parse_cap (sMsg item)) = false ->
  int q <> 0 ->
  let n := Z.max 1 (int q / 2) in
  cap_rung inst lever params (Some q) result w s =
    if n =? int q then (Ok result, s) else trade_call (with_sz params n) w s.
Proof.
  intros Hitem Hcode Hparse Hq n.
  unfold cap_rung. rewrite Hitem, Hcode.
  change (String.eqb "51004" "51004") with true. cbv iota beta.
  change (int_float (Some q)) with (Some (int q)).
  rewrite Hparse. simpl andb. cbv iota.
  unfold truthy_opt at 1. rewrite (truthyZ_true (int q) Hq). cbv iota.
  unfold bind, ret.
  change (default 0 (Some (int q))) with (int q). fold n.
  assert (Hn : truthyZ n = true) by (apply truthyZ_true; unfold n; lia).
  rewrite Hn. simpl andb.
  destruct (n =? int q); simpl; [|reflexivity].
  unfold margin_rung. rewrite Hitem, Hcode. reflexivity.
Qed.

(** X9. On a size-cap rejection (51004, not read as a TP-direction rejection)
    whose message names no cap (or a cap of zero), for a request whose size
    is a number with a non-zero integer part: nothing is cached, and the
    order is resubmitted once with [max(1, size // 2)] unless that is the
    size already requested, in which case the rejection is returned. *)
Theorem place_order_halves_on_unparsed_cap
    (inst side td : string) (q : Q) (ord ps : string) (tp sl : option Q)
    (tpt slt : string) (lever : option Z) (w : World) (s : State)
    (result : ApiResult) (item : Item) :
  price_is_read tp sl w s ->
  trade_place_order w (first_submission_clock tp sl s) = TradeReturns result ->
  is_tp_rejection result = false ->
  first_item result = Some item ->
  sCode item = "51004" ->
  truthy_opt (parse_cap (sMsg item)) = false ->
  int q <> 0 ->
  let out := place_order inst side td (Some q) ord ps tp sl tpt slt lever w s in
  let new_sz := Z.max 1 (int q / 2) in
  cap_cache (snd out) = cap_cache s /\
  (exists evs p,
      trace (snd out) = (trace s ++ evs)%list /\
      submissions evs = if new_sz =? int q then [p] else [p; with_sz p new_sz]) /\
  (new_sz = int q -> fst out = Ok result).
Proof.
  intros Hprice Hr Htp Hitem Hcode Hparse Hq out new_sz. subst out.
  destruct (place_order_as_ladder inst side td (Some q) ord ps tp sl tpt slt lever w s
              Hprice)
    as [attach [last [s0 [E [Hc [Hcache [pre [Hpre Hsub]]]]]]]].
  rewrite E. rewrite <- Hc in Hr.
  rewrite (guarded_ladder_on_size_rungs _ _ _ _ _ _ _ _ _ _ Hr Htp).
  unfold try_except.
  rewrite (cap_rung_halves _ _ _ _ _ _ _ _ Hitem Hcode Hparse Hq). fold new_sz.
  destruct (new_sz =? int q) eqn:B.
  - simpl. split; [exact Hcache|]. split; [|reflexivity].
    eexists (pre ++ [_])%list, _. split.
    + rewrite Hpre, app_assoc. reflexivity.
    + rewrite submissions_app, Hsub. reflexivity.
  - apply Z.eqb_neq in B. rewrite trade_call_run.
    destruct (reply_result _) as [r|e|]; simpl;
      (split; [exact Hcache|]; split; [|intros; contradiction];
       eexists (pre ++ [_; _])%list, _; split;
       [rewrite Hpre; rewrite <- !app_assoc; reflexivity
       |rewrite submissions_app, Hsub; reflexivity]).
Qed.

Lemma place_order_halves_on_unparsed_cap_witness :
  cap_cache (snd (place_order "DOGE-USDT-SWAP" "buy" "cross" (Some 9%Q) "market" "net"
                    None None "last" "last" (Some 100)
                    (rejecting_world "51004" "Position limit reached") start))
    = cap_cache start.
Proof.
  refine (proj1 (place_order_halves_on_unparsed_cap
                   "DOGE-USDT-SWAP" "buy" "cross" 9 "market" "net"
                   None None "last" "last" (Some 100)
                   (rejecting_world "51004" "Position limit reached") start
                   (Dict "1" ""
                      [{| ordId := ""; sCode := "51004";
                          sMsg := "Position limit reached" |}])
                   {| ordId := ""; sCode := "51004"; sMsg := "Position limit reached" |}
                   _ eq_refl eq_refl eq_refl eq_refl eq_refl _)).
  - intros H. discriminate H.
  - discriminate.
Defined.

(** ** What a retry changes *)

Lemma half_within c : 1 <= Z.max 1 (c / 2) <= Z.max 1 c.
Proof.
  split; [lia|].
  destruct (Z_lt_le_dec c 0) as [H|H].
  - assert (c / 2 < 0) by (apply Z.div_lt_upper_bound; lia). lia.
  - assert (c / 2 <= c) by (apply Z.div_le_upper_bound; lia). lia.
Qed.

Lemma margin_rung_retry params sz result w s :
  margin_rung params sz result w s = (Ok result, s) \/
  exists p, retry_of params p sz /\ margin_rung params sz result w s = trade_call p w s.
Proof.
  unfold margin_rung.
  destruct (match first_item result with
            | Some item => String.eqb (sCode item) "51008"
            | None => false
            end); [|left; reflexivity].
  destruct (int_float sz) as [cur|] eqn:E; [|left; reflexivity].
  destruct (truthyZ cur && (1 <? cur)); [|left; reflexivity].
  right. eexists. split; [|reflexivity].
  right. exists (Z.max 1 (cur / 2)), cur. split; [exact E|].
  split; [apply half_within | reflexivity].
Qed.

Lemma cap_rung_retry inst lever params sz result w s :
  exists s1,
    trace s1 = trace s /\ clock s1 = clock s /\
    (cap_rung inst lever params sz result w s = (Ok result, s1) \/
     exists p, retry_of params p sz /\
               cap_rung inst lever params sz result w s = trade_call p w s1).
Proof.
  unfold cap_rung.
  assert (Hm : forall s1, trace s1 = trace s -> clock s1 = clock s ->
               exists s2,
                 trace s2 = trace s /\ clock s2 = clock s /\
                 (margin_rung params sz result w s1 = (Ok result, s2) \/
                  exists p, retry_of params p sz /\
                            margin_rung params sz result w s1 = trade_call p w s2)).
  { intros s1 Ht Hc. exists s1. repeat split; try assumption.
    apply margin_rung_retry. }
  destruct (first_item result) as [item|];
    [destruct (String.eqb (sCode item) "51004")|];
    try (apply Hm; reflexivity).
  destruct (int_float sz) as [cur|] eqn:Ecur.
  - destruct (truthy_opt (parse_cap (sMsg item)) && truthy_opt (Some cur)) eqn:B.
    + destruct (update_position_cap_run inst lever (parse_cap (sMsg item)) w s)
        as [s1 [E [Ht Hc]]].
      unfold bind. rewrite E. unfold ret.
      destruct (truthyZ _ && negb _); [|apply Hm; assumption].
      exists s1. repeat split; try assumption.
      right. eexists. split; [|reflexivity].
      right. eexists _, cur. split; [exact Ecur|]. split; [|reflexivity].
      change (default 0 (Some cur)) with cur. lia.
    + unfold bind. destruct (truthy_opt (Some cur)); unfold ret;
        [|apply Hm; reflexivity].
      destruct (truthyZ _ && negb _); [|apply Hm; reflexivity].
      exists s. repeat split.
      right. eexists. split; [|reflexivity].
      right. eexists _, cur. split; [exact Ecur|]. split; [|reflexivity].
      change (default 0 (Some cur)) with cur. apply half_within.
  - rewrite andb_false_r. unfold bind, ret. simpl. apply Hm; reflexivity.
Qed.

Lemma guarded_ladder_retry inst lever params sz tp attach last w s :
  attach = attachAlgoOrds params ->
  let out := try_except (retry_ladder inst lever params sz tp attach last)
               any_exception error_dict w s in
  trace (snd out) = (trace s ++ [ETradePlaceOrder params])%list \/
  exists p,
    retry_of params p sz /\
    trace (snd out) = (trace s ++ [ETradePlaceOrder params; ETradePlaceOrder p])%list.
Proof.
  intros Hattach out. subst out. unfold try_except, retry_ladder, bind.
  rewrite trade_call_run.
  destruct (trade_place_order w (clock s)) as [msg|result]; simpl; [left; reflexivity|].
  destruct (tp_retry_fires (is_tp_rejection result) attach last) as [[[a orig] l]|] eqn:F.
  - right. eexists. split.
    + left. exists a, (flipped_tp orig l tp). split; [|reflexivity].
      unfold tp_retry_fires in F.
      destruct (is_tp_rejection result); [|discriminate].
      destruct attach as [a'|]; [|discriminate]. destruct last as [l'|]; [|discriminate].
      destruct (tpTriggerPx a'); [|discriminate].
      destruct (truthy l'); [|discriminate].
      injection F as -> _ _. symmetry. exact Hattach.
    + rewrite trade_call_run.
      destruct (reply_result _); simpl; rewrite <- app_assoc; reflexivity.
  - destruct (cap_rung_retry inst lever params sz result w
                (record_call (ETradePlaceOrder params) s))
      as [s1 [Ht [Hc [E|[p [Hp E]]]]]]; rewrite E.
    + left. simpl. exact Ht.
    + right. exists p. split; [exact Hp|].
      rewrite trade_call_run.
      destruct (reply_result _); simpl; rewrite Ht; simpl;
        rewrite <- app_assoc; reflexivity.
Qed.

Lemma retry_of_fields inst sd td rq ord ps attach p :
  retry_of (params_of inst sd td rq ord ps attach) p rq ->
  instId p = inst /\ tdMode p = td /\ side p = sd /\ ordType p = ord /\
  posSide p = posSide (params_of inst sd td rq ord ps attach) /\
  option_map slTriggerPx (attachAlgoOrds p)
    = option_map slTriggerPx
        (attachAlgoOrds (params_of inst sd td rq ord ps attach)) /\
  (sz p = rq \/
   attachAlgoOrds p = attachAlgoOrds (params_of inst sd td rq ord ps attach)).
Proof.
  intros [[a [new_tp [Ha ->]]]|[n [cur [_ [_ ->]]]]]; simpl in *.
  - rewrite Ha. simpl. repeat split; auto.
  - repeat split; auto.
Qed.

(** The submissions of one call: none, the order, or the order and one
    retry of it. *)
Lemma place_order_submissions inst sd td rq ord ps tp sl tpt slt lever w s :
  exists evs,
    trace (snd (place_order inst sd td rq ord ps tp sl tpt slt lever w s))
      = (trace s ++ evs)%list /\
    (submissions evs = [] \/
     exists attach,
       submissions evs = [params_of inst sd td rq ord ps attach] \/
       exists p,
         submissions evs = [params_of inst sd td rq ord ps attach; p] /\
         retry_of (params_of inst sd td rq ord ps attach) p rq).
Proof.
  destruct (first_submission_clock_cases tp sl s) as [[-> [-> Hc]]|Hc].
  - rewrite place_order_without_ratios.
    destruct (guarded_ladder_retry inst lever
                (params_of inst sd td rq ord ps None) rq None None None w s eq_refl)
      as [H|[p [Hp H]]]; eexists; (split; [exact H|]); right; exists None.
    + left. reflexivity.
    + right. exists p. split; [reflexivity | exact Hp].
  - destruct (market_ticker w (clock s)) as [pr|] eqn:Hp.
    + rewrite (place_order_with_ratio _ _ _ _ _ _ _ _ _ _ _ _ _ pr Hc Hp).
      set (attach := Some (build_attach_algo pr ps sd tp sl tpt slt)).
      destruct (guarded_ladder_retry inst lever
                  (params_of inst sd td rq ord ps attach) rq tp attach (Some pr) w
                  (record_call (EGetTicker inst) s) eq_refl)
        as [H|[p [Hr H]]].
      * exists [EGetTicker inst; ETradePlaceOrder (params_of inst sd td rq ord ps attach)].
        split; [rewrite H; simpl; rewrite <- app_assoc; reflexivity|].
        right. exists attach. left. reflexivity.
      * exists [EGetTicker inst; ETradePlaceOrder (params_of inst sd td rq ord ps attach);
                ETradePlaceOrder p].
        split; [rewrite H; simpl; rewrite <- app_assoc; reflexivity|].
        right. exists attach. right. exists p. split; [reflexivity | exact Hr].
    + rewrite (place_order_price_fault _ _ _ _ _ _ _ _ _ _ _ _ _ Hc Hp).
      exists [EGetTicker inst]. split; [reflexivity|]. left. reflexivity.
Qed.

(** X10. The submissions of one [place_order] call are none (the price could
    not be read), the order as requested, or that order followed by one
    resubmission. A resubmission is the same order (instrument, side, margin
    mode, order type, position side, stop-loss trigger) in which either only
    the take-profit trigger or only the size was replaced; a replaced size is
    an integer of at least 1 and at most the integer part of the requested
    size (or 1): a retry never enlarges the order. *)
Theorem place_order_retry_keeps_the_order
    (inst sd td : string) (rq : option Q) (ord ps : string) (tp sl : option Q)
    (tpt slt : string) (lever : option Z) (w : World) (s : State) :
  let out := place_order inst sd td rq ord ps tp sl tpt slt lever w s in
  exists evs,
    trace (snd out) = (trace s ++ evs)%list /\
    (submissions evs = [] \/
     exists p0,
       p0 = params_of inst sd td rq ord ps (attachAlgoOrds p0) /\
       (submissions evs = [p0] \/
        exists p,
          submissions evs = [p0; p] /\
          retry_of p0 p rq /\
          instId p = inst /\ tdMode p = td /\ side p = sd /\
          ordType p = ord /\ posSide p = posSide p0 /\
          option_map slTriggerPx (attachAlgoOrds p)
            = option_map slTriggerPx (attachAlgoOrds p0) /\
          (sz p = rq \/ attachAlgoOrds p = attachAlgoOrds p0))).
Proof.
  intros out. subst out.
  destruct (place_order_submissions inst sd td rq ord ps tp sl tpt slt lever w s)
    as [evs [Ht Hsub]].
  exists evs. split; [exact Ht|].
  destruct Hsub as [H|[attach Hsub]]; [left; exact H|].
  right. exists (params_of inst sd td rq ord ps attach). split; [reflexivity|].
  destruct Hsub as [H|[p [H Hr]]]; [left; exact H|].
  right. exists p. split; [exact H|]. split; [exact Hr|].
  apply (retry_of_fields inst sd td rq ord ps attach p Hr).
Qed.

(** ** Stop-loss and flipped take-profit triggers *)

(** X11. For every last price [last > 0] and every ratio, the stop-loss price
    computed by [place_order] lies strictly below [last] when the direction
    resolves to long and strictly above [last] when it resolves to short;
    with a zero ratio it is exactly [last * 0.998] (long) or [last * 1.002]
    (short). *)
Theorem sl_price_strictly_on_the_loss_side (last sl_ratio : Q) (pos_side sd : string) :
  (0 < last)%Q ->
  let sl_px := sl_price last (Qabs sl_ratio) (is_long_of pos_side sd) in
  (is_long_of pos_side sd = true ->
   (sl_px < last)%Q /\ ((sl_ratio == 0)%Q -> sl_px = (last * (998 # 1000))%Q)) /\
  (is_long_of pos_side sd = false ->
   (last < sl_px)%Q /\ ((sl_ratio == 0)%Q -> sl_px = (last * (1002 # 1000))%Q)).
Proof.
  intros Hlast sl_px. subst sl_px. split; intros Hl; rewrite Hl; unfold sl_price.
  - destruct (Qle_bool last (last * (1 - Qabs sl_ratio))) eqn:B.
    + split; [lra | reflexivity].
    + apply Qle_bool_false in B. split; [assumption|].
      intros Hz. exfalso.
      assert (Ha : (Qabs sl_ratio == 0)%Q) by (rewrite Hz; reflexivity).
      rewrite Ha in B. lra.
  - destruct (Qle_bool (last * (1 + Qabs sl_ratio)) last) eqn:B.
    + split; [lra | reflexivity].
    + apply Qle_bool_false in B. split; [assumption|].
      intros Hz. exfalso.
      assert (Ha : (Qabs sl_ratio == 0)%Q) by (rewrite Hz; reflexivity).
      rewrite Ha in B. lra.
Qed.

Lemma sl_price_strictly_on_the_loss_side_witness :
  (sl_price 30000 (Qabs (1 # 100)) (is_long_of "net" "sell") > 30000)%Q.
Proof.
  assert (H0 : (0 < 30000)%Q) by reflexivity.
  exact (proj1 (proj2 (sl_price_strictly_on_the_loss_side 30000 (1 # 100) "net" "sell" H0)
                  eq_refl)).
Defined.

Lemma Qmax_lower a b : (a <= Qmax a b)%Q.
Proof.
  unfold Qmax. destruct (Qltb a b) eqn:B; [apply Qltb_lt in B; lra | lra].
Qed.

(** The flipped trigger as computed, before it is written with six
    decimals. *)
Lemma flipped_tp_side (orig_tp last : Q) (tp_ratio : option Q) :
  (0 < last)%Q ->
  let new_tp := flipped_tp orig_tp last tp_ratio in
  ((last <= orig_tp)%Q -> (new_tp <= last - last * (1 # 1000))%Q) /\
  ((orig_tp < last)%Q -> (last + last * (1 # 1000) <= new_tp)%Q).
Proof.
  intros Hlast new_tp. subst new_tp. unfold flipped_tp.
  set (ratio := match tp_ratio with
                | Some r => if truthy (Qabs r) then Qabs r else (1 # 100)%Q
                | None => (1 # 100)%Q
                end).
  pose proof (Qmax_lower (1 # 1000) ratio) as Hm.
  set (m := Qmax (1 # 1000) ratio) in *.
  assert (Hprod : (last * (1 # 1000) <= last * m)%Q).
  { rewrite !(Qmult_comm last). apply Qmult_le_compat_r; lra. }
  split; intros H.
  - apply Qle_bool_iff in H. rewrite H.
    assert (E : (last * (1 - m) == last - last * m)%Q) by ring.
    rewrite E. lra.
  - apply Qle_bool_false in H. rewrite H.
    assert (E : (last * (1 + m) == last + last * m)%Q) by ring.
    rewrite E. lra.
Qed.

Lemma Qmake_millionths (n : Z) : (n # 1000000 == inject_Z n * (1 # 1000000))%Q.
Proof. unfold Qeq. simpl. lia. Qed.

(** Writing a price with six decimals moves it by half a millionth at
    most. *)
Lemma round6_close (q : Q) :
  (q - (1 # 2000000) <= round6 q)%Q /\ (round6 q <= q + (1 # 2000000))%Q.
Proof.
  unfold round6. cbv zeta.
  set (x := (q * 1000000)%Q).
  assert (Hq : (q == x * (1 # 1000000))%Q) by (unfold x; field).
  pose proof (Qfloor_le x) as Hlo. pose proof (Qlt_floor x) as Hhi.
  rewrite inject_Z_plus in Hhi.
  change (inject_Z 1) with 1%Q in Hhi.
  set (f := Qfloor x) in *. clearbody f. clearbody x.
  destruct (Qltb (x - inject_Z f) (1 # 2)) eqn:B1; cbv iota.
  - apply Qltb_lt in B1. rewrite Qmake_millionths. split; lra.
  - apply Qltb_ge in B1.
    destruct (Qltb (1 # 2) (x - inject_Z f)) eqn:B2; cbv iota.
    + rewrite Qmake_millionths, inject_Z_plus.
      change (inject_Z 1) with 1%Q. split; lra.
    + apply Qltb_ge in B2.
      destruct (Z.even f); cbv iota;
        rewrite Qmake_millionths, ?inject_Z_plus;
        change (inject_Z 1) with 1%Q; split; lra.
Qed.

(** X12. When the exchange answers the first submission of [place_order] with
    a TP-direction rejection and the last price is 0.001 or more, the
    take-profit trigger carried by the resubmitted order (as it is written,
    with six decimals) lies on the other side of the last price than the
    trigger the rejected order carried: strictly below [last] when that one
    was at or above it, strictly above otherwise. *)
Theorem flipped_tp_is_on_the_other_side
    (inst sd td : string) (rq : option Q) (ord ps : string) (ratio : Q)
    (sl : option Q) (tpt slt : string) (lever : option Z) (w : World) (s : State)
    (last : Q) (r1 : ApiResult) :
  market_ticker w (clock s) = Some last ->
  (1 # 1000 <= last)%Q ->
  trade_place_order w (S (clock s)) = TradeReturns r1 ->
  is_tp_rejection r1 = true ->
  let out := place_order inst sd td rq ord ps (Some ratio) sl tpt slt lever w s in
  exists p0 p t0 t1,
    trace (snd out) =
      (trace s ++ [EGetTicker inst; ETradePlaceOrder p0; ETradePlaceOrder p])%list /\
    option_map tpTriggerPx (attachAlgoOrds p0) = Some (Some t0) /\
    option_map tpTriggerPx (attachAlgoOrds p) = Some (Some t1) /\
    ((last <= t0)%Q -> (t1 < last)%Q) /\
    ((t0 < last)%Q -> (last < t1)%Q).
Proof.
  intros Hp Hlast Hr Htp out. subst out.
  assert (Hc : first_submission_clock (Some ratio) sl s = S (clock s))
    by (destruct sl; reflexivity).
  rewrite (place_order_with_ratio _ _ _ _ _ _ _ _ _ _ _ _ _ last Hc Hp).
  set (attach := build_attach_algo last ps sd (Some ratio) sl tpt slt).
  set (params := params_of inst sd td rq ord ps (Some attach)).
  set (s0 := record_call (EGetTicker inst) s).
  set (t0 := round6 (tp_price last (Qabs ratio) (is_long_of ps sd))).
  assert (Hnz : truthy last = true) by (apply truthy_true; lra).
  unfold try_except.
  rewrite (retry_ladder_tp_retry inst lever params rq (Some ratio) attach last w s0 r1 t0
             Hr Htp eq_refl Hnz).
  rewrite trade_call_run.
  exists params, (with_tp params attach (flipped_tp t0 last (Some ratio))), t0,
    (round6 (flipped_tp t0 last (Some ratio))).
  split.
  { destruct (reply_result _) as [r|e|]; simpl; rewrite <- !app_assoc; reflexivity. }
  split; [reflexivity|]. split; [reflexivity|].
  assert (Hpos : (0 < last)%Q) by lra.
  destruct (flipped_tp_side t0 last (Some ratio) Hpos) as [Hdown Hup].
  destruct (round6_close (flipped_tp t0 last (Some ratio))) as [Hlo Hhi].
  split; intros H.
  - specialize (Hdown H). lra.
  - specialize (Hup H). lra.
Qed.

Lemma flipped_tp_is_on_the_other_side_witness :
  exists p0 p t0 t1,
    trace (snd (place_order "DOGE-USDT-SWAP" "buy" "cross" (Some 10%Q) "market" "net"
                  (Some (2 # 100)%Q) (Some (1 # 100)%Q) "last" "last" (Some 100)
                  (rejecting_world "51052" tp_rejection_msg) start)) =
      (trace start ++
         [EGetTicker "DOGE-USDT-SWAP"; ETradePlaceOrder p0; ETradePlaceOrder p])%list /\
    option_map tpTriggerPx (attachAlgoOrds p0) = Some (Some t0) /\
    option_map tpTriggerPx (attachAlgoOrds p) = Some (Some t1) /\
    ((30 <= t0)%Q -> (t1 < 30)%Q) /\
    ((t0 < 30)%Q -> (30 < t1)%Q).
Proof.
  apply (flipped_tp_is_on_the_other_side
           "DOGE-USDT-SWAP" "buy" "cross" (Some 10%Q) "market" "net" (2 # 100)
           (Some (1 # 100)%Q) "last" "last" (Some 100)
           (rejecting_world "51052" tp_rejection_msg) start 30
           (Dict "1" "" [{| ordId := ""; sCode := "51052"; sMsg := tp_rejection_msg |}]));
    [reflexivity | discriminate | reflexivity | reflexivity].
Defined.

(** ** Frame rules for code that places no order *)

Section ReadOnly.
Variable R : State -> State -> Prop.
Hypothesis R_refl : forall s, R s s.
Hypothesis R_trans : forall a b c, R a b -> R b c -> R a c.
Hypothesis R_read :
  forall e s, is_order e = false -> is_log e = false -> R s (record_call e s).
Hypothesis R_log : forall e s, is_log e = true -> R s (record_log e s).
Hypothesis R_idx : forall i s, R s (set_idx i s).

Lemma ro_call (e : Event) :
  is_order e = false -> is_log e = false -> keeps R (call e).
Proof. intros H1 H2 w s. apply R_read; assumption. Qed.

Lemma ro_log (e : Event) : is_log e = true -> keeps R (log e).
Proof. intros H w s. apply R_log, H. Qed.

Ltac ro_step :=
  match goal with
  | |- keeps _ (bind _ _) => apply (keeps_bind R R_trans); [|intros ?]
  | |- keeps _ (try_except _ _ _) => apply (keeps_try_except R R_trans); [|intros ?]
  | |- keeps _ (ret _) => apply (keeps_ret R R_refl)
  | |- keeps _ (raise _) => apply (keeps_raise R R_refl)
  | |- keeps _ running => apply (keeps_running R R_refl)
  | |- keeps _ (lift _) => apply (keeps_lift R R_refl)
  | |- keeps _ world => apply (keeps_world R R_refl)
  | |- keeps _ get_state => apply (keeps_get_state R R_refl)
  | |- keeps _ (call _) => apply ro_call; reflexivity
  | |- keeps _ (log _) => apply ro_log; reflexivity
  | |- keeps _ (match ?x with _ => _ end) => destruct x
  | |- keeps _ _ => assumption
  end.

Lemma ro_sleep sec : keeps R (sleep sec).
Proof. unfold sleep. repeat ro_step. Qed.

Lemma ro_get_candles inst limit : keeps R (get_candles inst limit).
Proof. unfold get_candles. repeat ro_step. Qed.

Lemma ro_get_positions inst : keeps R (get_positions inst).
Proof. unfold get_positions. repeat ro_step. Qed.

Lemma ro_get_usdt_balance : keeps R get_usdt_balance.
Proof. unfold get_usdt_balance. repeat ro_step. Qed.

Lemma ro_get_position_mode : keeps R get_position_mode.
Proof. unfold get_position_mode. repeat ro_step. Qed.

Lemma ro_plan_size_from_notional inst N L : keeps R (plan_size_from_notional inst N L).
Proof. unfold plan_size_from_notional, get_last_price, div. repeat ro_step. Qed.

Lemma ro_decide_direction ai inst candles : keeps R (decide_direction ai inst candles).
Proof.
  destruct ai; unfold decide_direction, OpenAICompat.decide_direction,
    Heuristic.decide_direction; repeat ro_step.
Qed.

Lemma ro_get_cached_position_cap inst lever : keeps R (get_cached_position_cap inst lever).
Proof. unfold get_cached_position_cap. repeat ro_step. Qed.

Lemma ro_poll_until_no_positions fuel poll_sec :
  keeps R (poll_until_no_positions fuel poll_sec).
Proof.
  induction fuel as [|fuel IH]; simpl; [apply (keeps_running R R_refl)|].
  unfold get_positions, sleep. repeat ro_step.
Qed.

Lemma ro_log_close_order inst open_balance ord :
  keeps R (log_close_order inst open_balance ord).
Proof. unfold log_close_order, get_usdt_balance, get_positions. repeat ro_step. Qed.

Lemma ro_open_position_dry ai cfg inst candles :
  keeps R (open_position ai cfg inst true candles).
Proof.
  unfold open_position. cbv iota.
  pose proof (ro_decide_direction ai (inst_id inst)) as Hd.
  pose proof (ro_plan_size_from_notional (inst_id inst)) as Hp.
  unfold get_candles, get_position_mode, get_usdt_balance, get_cached_position_cap.
  repeat ro_step; first [apply Hd | apply Hp].
Qed.

Lemma ro_open_and_wait_dry fuel ai cfg inst poll :
  keeps R (open_and_wait fuel ai cfg inst true poll).
Proof.
  unfold open_and_wait. cbv iota.
  pose proof (ro_open_position_dry ai cfg inst) as Ho.
  pose proof (ro_log_close_order inst) as Hl.
  pose proof ro_sleep as Hs. pose proof ro_get_candles as Hc.
  pose proof ro_get_usdt_balance as Hb.
  repeat first [apply Ho | apply Hl | apply Hs | apply Hc | apply Hb | ro_step].
Qed.

Lemma ro_cycle_dry fuel ai cfg :
  dry_run (trading cfg) = true -> keeps R (cycle fuel ai cfg).
Proof.
  intros Hdry. unfold cycle. rewrite Hdry.
  pose proof (ro_open_and_wait_dry fuel ai cfg) as Ho.
  pose proof ro_sleep as Hs. pose proof ro_get_positions as Hp.
  repeat first [apply Ho | apply Hs | apply Hp | ro_step].
  intros w s. apply R_idx.
Qed.

Lemma ro_cycles_dry n fuel ai cfg :
  dry_run (trading cfg) = true -> keeps R (cycles n fuel ai cfg).
Proof.
  intros Hdry. induction n as [|n IH]; simpl; [apply (keeps_running R R_refl)|].
  apply (keeps_bind R R_trans); [apply ro_cycle_dry, Hdry | intros _; exact IH].
Qed.

Lemma ro_trade_loop_dry n fuel ai cfg :
  dry_run (trading cfg) = true -> keeps R (trade_loop n fuel ai cfg).
Proof.
  intros Hdry. unfold trade_loop.
  destruct (instruments cfg); [apply (keeps_ret R R_refl)|].
  apply (keeps_bind R R_trans); [intros w s; apply R_idx|].
  intros _. apply ro_cycles_dry, Hdry.
Qed.
End ReadOnly.

(** ** The trading loop as a whole *)

Lemma reads_only_refl s : reads_only s s.
Proof. split; [reflexivity | apply extends_by_refl]. Qed.

Lemma reads_only_trans a b c : reads_only a b -> reads_only b c -> reads_only a c.
Proof.
  intros [C1 U1] [C2 U2]. split.
  - unfold same_cache in *. congruence.
  - eapply extends_by_trans; eassumption.
Qed.

Lemma reads_only_read e s :
  is_order e = false -> is_log e = false -> reads_only s (record_call e s).
Proof.
  intros H _. split; [reflexivity|].
  apply (extends_by_one _ e); [reflexivity|]. unfold not_order. rewrite H. reflexivity.
Qed.

Lemma reads_only_log e s : is_log e = true -> reads_only s (record_log e s).
Proof.
  intros H. split; [reflexivity|].
  apply (extends_by_one _ e); [reflexivity|]. destruct e; try discriminate; reflexivity.
Qed.

Lemma reads_only_idx i s : reads_only s (set_idx i s).
Proof. split; [reflexivity|]. exists []. simpl. rewrite app_nil_r. split; reflexivity. Qed.

Lemma no_order_no_submission evs : forallb not_order evs = true -> submissions evs = [].
Proof.
  induction evs as [|e evs IH]; [reflexivity|].
  simpl. intros H. apply andb_true_iff in H. destruct H as [He H].
  destruct e; simpl in *; try (apply IH; assumption). discriminate.
Qed.

(** X13. In dry-run mode the trading loop, however many passes it makes and
    whatever the exchange and the decision service answer, never sets the
    leverage, never submits an order and never changes the position-cap
    cache. *)
Theorem dry_run_places_no_order
    (n fuel : nat) (ai : AIClient) (cfg : AppConfig) (w : World) (s : State) :
  dry_run (trading cfg) = true ->
  let s' := snd (trade_loop n fuel ai cfg w s) in
  cap_cache s' = cap_cache s /\
  exists evs,
    trace s' = (trace s ++ evs)%list /\
    forallb not_order evs = true /\ submissions evs = [].
Proof.
  intros Hdry s'.
  destruct (ro_trade_loop_dry reads_only reads_only_refl reads_only_trans
              reads_only_read reads_only_log reads_only_idx n fuel ai cfg Hdry w s)
    as [Hc [evs [Ht Hf]]].
  split; [exact Hc|]. exists evs. repeat split; try assumption.
  apply no_order_no_submission, Hf.
Qed.

Lemma dry_run_places_no_order_witness :
  cap_cache (snd (trade_loop 2 3 OpenAICompatClient big_cfg
                    (rejecting_world "51004" cap_msg) start)) = cap_cache start.
Proof.
  exact (proj1 (dry_run_places_no_order 2 3 OpenAICompatClient big_cfg
                  (rejecting_world "51004" cap_msg) start eq_refl)).
Defined.

Lemma cycle_result fuel ai cfg w s :
  fst (cycle fuel ai cfg w s) <> Raise NetworkError.
Proof.
  unfold cycle, try_except.
  match goal with
  | |- fst (match ?body w s with _ => _ end) <> _ =>
      destruct (body w s) as [[[]|e|] s1]
  end; try discriminate.
  destruct e; simpl; discriminate.
Qed.

Lemma cycles_result n fuel ai cfg w s :
  fst (cycles n fuel ai cfg w s) <> Ok tt /\
  fst (cycles n fuel ai cfg w s) <> Raise NetworkError.
Proof.
  revert s. induction n as [|n IH]; intros s; simpl; [split; discriminate|].
  unfold bind.
  pose proof (cycle_result fuel ai cfg w s) as Hc.
  destruct (cycle fuel ai cfg w s) as [[[]|e|] s1]; simpl in *.
  - apply IH.
  - split; [discriminate | congruence].
  - split; discriminate.
Qed.

(** X14. With no instrument configured [trade_loop] returns at once without a
    single call. With at least one, it has no normal exit and a
    [NetworkError] never ends it: after any number of passes it is either
    still running or has been ended by an exception of another class. *)
Theorem trade_loop_exits
    (n fuel : nat) (ai : AIClient) (cfg : AppConfig) (w : World) (s : State) :
  (instruments cfg = [] -> trade_loop n fuel ai cfg w s = (Ok tt, s)) /\
  (instruments cfg <> [] ->
   fst (trade_loop n fuel ai cfg w s) = Running \/
   exists e, fst (trade_loop n fuel ai cfg w s) = Raise e /\ e <> NetworkError).
Proof.
  unfold trade_loop. split.
  - intros ->. reflexivity.
  - intros Hne. destruct (instruments cfg) as [|i l]; [contradiction|].
    unfold bind, modify.
    destruct (cycles_result n fuel ai cfg w (set_idx 0 s)) as [H1 H2].
    destruct (cycles n fuel ai cfg w (set_idx 0 s)) as [[[]|e|] s1]; simpl in *.
    + contradiction.
    + right. exists e. split; [reflexivity | congruence].
    + left. reflexivity.
Qed.

Lemma trade_loop_exits_witness :
  fst (trade_loop 3 5 HeuristicAIClient big_cfg (calm_world 30) start) = Running \/
  exists e, fst (trade_loop 3 5 HeuristicAIClient big_cfg (calm_world 30) start) = Raise e
            /\ e <> NetworkError.
Proof.
  apply (proj2 (trade_loop_exits 3 5 HeuristicAIClient big_cfg (calm_world 30) start)).
  discriminate.
Defined.

(** ** Waiting for the account to be flat *)

(** The guard expression is [False] exactly on flat entries. *)
Lemma any_open_flat (positions : list Position) :
  any_open positions = Ok false <-> Forall is_flat positions.
Proof.
  induction positions as [|p ps IH]; simpl.
  - split; [constructor | reflexivity].
  - destruct (pos_pos p) as [[q|]|] eqn:E; simpl.
    + destruct (Qltb 0 (Qabs q)) eqn:B.
      * split; [discriminate|]. intros H. inversion H as [|? ? Hp _]; subst.
        destruct Hp as [Hp|[q' [Hp Hz]]]; rewrite E in Hp; [discriminate|].
        injection Hp as <-. apply Qabs_positive in B. contradiction.
      * rewrite IH. split.
        -- intros H. constructor; [|exact H]. right. exists q. split; [exact E|].
           destruct (Qeq_dec q 0) as [Hz|Hz]; [exact Hz|].
           apply Qabs_positive in Hz. congruence.
        -- intros H. inversion H; assumption.
    + split; [discriminate|]. intros H. inversion H as [|? ? Hp _]; subst.
      destruct Hp as [Hp|[q' [Hp _]]]; rewrite E in Hp; discriminate.
    + change (Qltb 0 (Qabs 0)) with false. cbv iota. rewrite IH. split.
      * intros H. constructor; [left; exact E | exact H].
      * intros H. inversion H; assumption.
Qed.

(** X15. [any(abs(float(p.get("pos", 0))) > 0 for p in positions)], the guard
    of [trade_loop] and of the wait: it is [False] exactly when every entry is
    flat (its [pos] is absent or is a number equal to zero); when it is [True]
    some entry holds a non-zero [pos]; and when it raises, whatever the class
    of the exception, some entry has a [pos] that [float] refuses. *)
Theorem position_guard_contract (positions : list Position) :
  (any_open positions = Ok false <-> Forall is_flat positions) /\
  (any_open positions = Ok true -> Exists has_position positions) /\
  (forall e, any_open positions = Raise e ->
             Exists (fun p => pos_pos p = Some None) positions).
Proof.
  split; [apply any_open_flat|].
  induction positions as [|p ps [IHt IHr]]; simpl.
  - split; [discriminate | intros e H; discriminate].
  - destruct (pos_pos p) as [[q|]|] eqn:E; simpl.
    + destruct (Qltb 0 (Qabs q)) eqn:B.
      * split; [|intros e H; discriminate].
        intros _. left. exists q. split; [exact E|].
        intros Hz. apply Qabs_positive in Hz; [|exact B]. exact Hz.
      * split.
        -- intros H. right. apply IHt, H.
        -- intros e H. right. exact (IHr e H).
    + split; [discriminate|]. intros e H. left. exact E.
    + change (Qltb 0 (Qabs 0)) with false. cbv iota. split.
      * intros H. right. apply IHt, H.
      * intros e H. right. exact (IHr e H).
Qed.

Lemma poll_round_open fuel poll w s :
  open_at w (clock s) ->
  poll_until_no_positions (S fuel) poll w s =
    poll_until_no_positions fuel poll w
      (record_call (ESleep poll) (record_call (EGetPositions None) s)).
Proof.
  intros [ps [Hp Ho]]. simpl. unfold get_positions. mrun. simpl.
  rewrite Hp, Ho. reflexivity.
Qed.

Lemma poll_round_flat fuel poll w s :
  flat_at w (clock s) ->
  poll_until_no_positions (S fuel) poll w s =
    (Ok tt, record_call (EGetPositions None) s).
Proof.
  intros [ps [Hp Ho]]. simpl. unfold get_positions. mrun. simpl.
  rewrite Hp, Ho. reflexivity.
Qed.

(** X16. [poll_until_no_positions] on an account that shows a position at its
    first [k] queries and none at the next one returns after exactly [k]
    sleeps of the poll interval, given fuel for [k + 1] rounds; its calls are
    the queries and the sleeps, nothing else. If the account shows a position
    at every query the fuel allows, it is still waiting. *)
Theorem poll_until_no_positions_waits
    (k fuel : nat) (poll : Z) (w : World) (s : State) :
  (forall i, (i < k)%nat -> open_at w (clock s + 2 * i)) ->
  (flat_at w (clock s + 2 * k) -> (k < fuel)%nat ->
   exists s',
     poll_until_no_positions fuel poll w s = (Ok tt, s') /\
     trace s' = (trace s ++ polling k poll)%list /\
     clock s' = (clock s + 2 * k + 1)%nat /\
     cap_cache s' = cap_cache s /\ idx s' = idx s) /\
  (k = fuel -> fst (poll_until_no_positions fuel poll w s) = Running).
Proof.
  revert fuel s. induction k as [|k IH]; intros fuel s Hopen.
  - split.
    + intros Hflat Hfuel. destruct fuel as [|fuel]; [lia|].
      replace (clock s + 2 * 0)%nat with (clock s) in Hflat by lia.
      rewrite (poll_round_flat fuel poll w s Hflat).
      eexists. split; [reflexivity|]. simpl. repeat split. lia.
    + intros <-. reflexivity.
  - assert (H0 : open_at w (clock s)).
    { specialize (Hopen 0%nat ltac:(lia)).
      replace (clock s + 2 * 0)%nat with (clock s) in Hopen by lia. exact Hopen. }
    set (s2 := record_call (ESleep poll) (record_call (EGetPositions None) s)).
    assert (Hopen2 : forall i, (i < k)%nat -> open_at w (clock s2 + 2 * i)).
    { intros i Hi. specialize (Hopen (S i) ltac:(lia)).
      replace (clock s2 + 2 * i)%nat with (clock s + 2 * S i)%nat
        by (unfold s2; simpl; lia).
      exact Hopen. }
    split.
    + intros Hflat Hfuel. destruct fuel as [|fuel]; [lia|].
      rewrite (poll_round_open fuel poll w s H0). fold s2.
      replace (clock s + 2 * S k)%nat with (clock s2 + 2 * k)%nat in Hflat
        by (unfold s2; simpl; lia).
      destruct (proj1 (IH fuel s2 Hopen2) Hflat ltac:(lia))
        as [s' [E [Ht [Hc [Hcc Hi]]]]].
      exists s'. split; [exact E|]. repeat split.
      * rewrite Ht. unfold s2. simpl. rewrite <- !app_assoc. reflexivity.
      * rewrite Hc. unfold s2. simpl. lia.
      * rewrite Hcc. reflexivity.
      * rewrite Hi. reflexivity.
    + intros <-. rewrite (poll_round_open k poll w s H0). fold s2.
      apply (proj2 (IH k s2 Hopen2)). reflexivity.
Qed.

Lemma poll_until_no_positions_waits_witness :
  exists s',
    poll_until_no_positions 5 30 closing_world start = (Ok tt, s') /\
    trace s' = (trace start ++ polling 2 30)%list.
Proof.
  assert (Hopen : forall i, (i < 2)%nat -> open_at closing_world (clock start + 2 * i)).
  { intros [|[|i]] Hi.
    - eexists. split; reflexivity.
    - eexists. split; reflexivity.
    - exfalso. apply Nat.nle_succ_0 with i. do 2 apply le_S_n. exact Hi. }
  assert (Hflat : flat_at closing_world (clock start + 2 * 2)).
  { exists []. split; reflexivity. }
  assert (Hfuel : (2 < 5)%nat) by (repeat constructor).
  destruct (proj1 (poll_until_no_positions_waits 2 5 30 closing_world start Hopen)
              Hflat Hfuel) as [s' [E [Ht _]]].
  exists s'. split; assumption.
Defined.

Lemma any_open_not_running positions : any_open positions <> Running.
Proof.
  induction positions as [|p ps IH]; simpl; [discriminate|].
  destruct (default (Some 0%Q) (pos_pos p)) as [q|]; simpl; [|discriminate].
  destruct (Qltb 0 (Qabs q)); [discriminate | exact IH].
Qed.

(** X17. [has_open_position] raises nothing but [NetworkError] (an unreadable
    [pos] included, unlike the guard of [trade_loop]), and it answers [False]
    exactly when the position query answers and every entry is flat. *)
Theorem has_open_position_contract (inst : string) (w : World) (s : State) :
  let out := has_open_position inst w s in
  (forall e, fst out = Raise e -> e = NetworkError) /\
  fst out <> Running /\
  (fst out = Ok false <->
   exists ps, account_positions w (clock s) = Some ps /\ Forall is_flat ps).
Proof.
  unfold has_open_position, get_positions. mrun. simpl.
  destruct (account_positions w (clock s)) as [ps|]; simpl.
  - destruct (any_open ps) as [b|e|] eqn:Ho; simpl.
    + split; [discriminate|]. split; [discriminate|]. split.
      * intros H. injection H as ->. exists ps. split; [reflexivity|].
        apply any_open_flat, Ho.
      * intros [ps' [E Hf]]. injection E as <-.
        apply any_open_flat in Hf. congruence.
    + split; [intros e' H; congruence|]. split; [discriminate|]. split.
      * discriminate.
      * intros [ps' [E Hf]]. injection E as <-.
        apply any_open_flat in Hf. congruence.
    + exfalso. exact (any_open_not_running ps Ho).
  - split; [intros e' H; congruence|]. split; [discriminate|]. split.
    + discriminate.
    + intros [ps' [E _]]. discriminate.
Qed.

(** ** What [open_position] plans *)

Lemma step_quiet {A B} (ok : Event -> bool) (m : M A) (k : A -> M B) w s :
  (forall e, not_log e = true -> ok e = true) ->
  keeps quiet m ->
  (forall a s1, extends_by ok s1 (snd (k a w s1))) ->
  extends_by ok s (snd (bind m k w s)).
Proof.
  intros Hok Hm Hk. unfold bind. destruct (Hm w s) as [_ Hu].
  apply (extends_by_weaken _ ok) in Hu; [|exact Hok].
  destruct (m w s) as [[a|e|] s1]; simpl in *; try assumption.
  eapply extends_by_trans; [exact Hu | apply Hk].
Qed.

(** Every event [open_position] adds is an outside call or a plan line of the
    form it logs. *)
Lemma open_position_plan_event (ok : Event -> bool) ai cfg inst dry candles w s :
  (forall e, not_log e = true -> ok e = true) ->
  (forall max_cap planned n,
      ok (ELogPlan (apply_caps cfg inst max_cap planned) n) = true) ->
  extends_by ok s (snd (open_position ai cfg inst dry candles w s)).
Proof.
  intros Hok Hplan. unfold open_position.
  apply step_quiet; [exact Hok | |].
  { destruct candles; [apply keeps_get_candles | apply keeps_ret]; quiet_side. }
  intros candles' s1.
  apply step_quiet; [exact Hok | apply keeps_decide_direction; quiet_side|].
  intros direction s2.
  apply step_quiet; [exact Hok | apply keeps_get_position_mode; quiet_side|].
  intros mode s3. cbv zeta.
  apply step_quiet; [exact Hok | apply keeps_get_usdt_balance; quiet_side|].
  intros balance s4.
  destruct (Qle_bool balance 0); [apply extends_by_refl|].
  apply step_quiet; [exact Hok | apply keeps_plan_size_from_notional; quiet_side|].
  intros sz_plan s5.
  rewrite bind_get_cached_position_cap. cbv zeta. rewrite bind_log.
  match goal with
  | |- extends_by _ _ (snd (_ w ?mid)) => apply (extends_by_trans _ _ mid)
  end.
  - eapply extends_by_one; [reflexivity | apply Hplan].
  - destruct dry; [apply extends_by_refl|].
    apply (extends_by_weaken not_log); [exact Hok|].
    match goal with
    | |- extends_by _ ?s0 (snd (?m w ?s0)) =>
        change (unlogged s0 (snd (m w s0))); generalize w s0;
        change (keeps unlogged m)
    end.
    apply keeps_bind; [exact (extends_by_trans not_log) | |intros ?].
    + apply keeps_set_leverage;
        first [exact (extends_by_refl not_log) | exact (extends_by_trans not_log)
              | exact unlogged_call].
    + apply keeps_bind; [exact (extends_by_trans not_log) | |intros ?].
      * apply keeps_place_order;
          first [exact (extends_by_refl not_log) | exact (extends_by_trans not_log)
                | exact unlogged_call | exact unlogged_cache].
      * apply keeps_ret. exact (extends_by_refl not_log).
Qed.

Lemma apply_caps_below_candidate cfg inst max_cap planned m :
  truthy_opt (fixed_contracts inst) = false ->
  In m (truthy_candidates
          [max_contracts inst; cfg_max_contracts (trading cfg); max_cap]) ->
  apply_caps cfg inst max_cap planned <= m.
Proof.
  intros Hfix Hin. unfold apply_caps. rewrite Hfix.
  destruct (truthy_candidates _) as [|c cs]; [contradiction|].
  pose proof (min_of_le c cs m Hin).
  destruct (min_of c cs <? planned) eqn:B; [lia|].
  apply Z.ltb_ge in B. lia.
Qed.

Lemma truthy_candidates_in (cs : list (option Z)) (m : Z) :
  In (Some m) cs -> m <> 0 -> In m (truthy_candidates cs).
Proof.
  intros Hin Hm. induction cs as [|[c|] cs IH]; simpl in *; [contradiction| |].
  - destruct Hin as [E|Hin].
    + injection E as ->. rewrite (truthyZ_true m Hm). left. reflexivity.
    + destruct (truthyZ c); [right|]; apply IH, Hin.
  - destruct Hin as [E|Hin]; [discriminate | apply IH, Hin].
Qed.

(** X18. The plans [open_position] logs obey the precedence of the caps,
    whatever balance, price and leverage are: with [fixed_contracts] set
    (non-zero) every plan has exactly that count, caps ignored; with it unset,
    no plan exceeds a non-zero [max_contracts] of the instrument or of the
    global configuration. *)
Theorem open_position_cap_precedence
    (ai : AIClient) (cfg : AppConfig) (inst : InstrumentConfig) (dry : bool)
    (candles : list Candle) (w : World) (s : State) :
  let s' := snd (open_position ai cfg inst dry candles w s) in
  (forall f, fixed_contracts inst = Some f -> f <> 0 -> extends_by (plan_is f) s s') /\
  (forall m, truthy_opt (fixed_contracts inst) = false ->
             max_contracts inst = Some m \/ cfg_max_contracts (trading cfg) = Some m ->
             m <> 0 -> extends_by (plan_within m) s s').
Proof.
  intros s'. subst s'. split.
  - intros f Hf Hf0. apply open_position_plan_event.
    + intros e He. destruct e; simpl in *; auto; discriminate.
    + intros max_cap planned n. simpl. unfold apply_caps. rewrite Hf. simpl.
      rewrite (truthyZ_true f Hf0). apply Z.eqb_refl.
  - intros m Hfix Hm Hm0. apply open_position_plan_event.
    + apply not_log_within.
    + intros max_cap planned n. simpl. apply Z.leb_le.
      apply apply_caps_below_candidate; [exact Hfix|].
      apply truthy_candidates_in; [|exact Hm0].
      destruct Hm as [<-|<-]; simpl; auto.
Qed.

Lemma open_position_cap_precedence_witness :
  extends_by (plan_is 7) start
    (snd (open_position HeuristicAIClient big_cfg fixed7 true [] (calm_world 30) start)).
Proof.
  apply (proj1 (open_position_cap_precedence HeuristicAIClient big_cfg fixed7 true []
                  (calm_world 30) start) 7 eq_refl).
  discriminate.
Defined.

(** ** [open_position] without funds *)

Lemma silent_refl s : silent s s.
Proof. split; [reflexivity | apply extends_by_refl]. Qed.

Lemma silent_trans a b c : silent a b -> silent b c -> silent a c.
Proof.
  intros [C1 U1] [C2 U2]. split.
  - unfold same_cache in *. congruence.
  - eapply extends_by_trans; eassumption.
Qed.

Lemma silent_read e s :
  is_order e = false -> is_log e = false -> silent s (record_call e s).
Proof.
  intros H1 H2. split; [reflexivity|].
  apply (extends_by_one _ e); [reflexivity|].
  unfold is_read, not_order, not_log. rewrite H1, H2. reflexivity.
Qed.

Lemma step_silent {A B} (Post : B -> Prop) (m : M A) (k : A -> M B) w s :
  keeps silent m ->
  (forall a s1, m w s = (Ok a, s1) ->
                silent s1 (snd (k a w s1)) /\
                (forall r, fst (k a w s1) = Ok r -> Post r)) ->
  silent s (snd (bind m k w s)) /\ (forall r, fst (bind m k w s) = Ok r -> Post r).
Proof.
  intros Hm Hk. unfold bind. pose proof (Hm w s) as Hs.
  destruct (m w s) as [[a|e|] s1]; simpl in *.
  - destruct (Hk a s1 eq_refl) as [H1 H2]. split; [|exact H2].
    eapply silent_trans; eassumption.
  - split; [exact Hs | discriminate].
  - split; [exact Hs | discriminate].
Qed.

Lemma get_usdt_balance_value w s b s1 :
  get_usdt_balance w s = (Ok b, s1) -> account_balance w (clock s) = Some b.
Proof.
  unfold get_usdt_balance. mrun. simpl.
  destruct (account_balance w (clock s)); [congruence | discriminate].
Qed.

(** X19. When the balance read is zero or negative, [open_position] gives up
    before planning: it returns no order id, logs no plan, sets no leverage,
    submits no order and leaves the cache alone. (Stated for an account that
    never shows a positive balance, so that it holds wherever the read falls
    in the call sequence.) *)
Theorem open_position_needs_balance
    (ai : AIClient) (cfg : AppConfig) (inst : InstrumentConfig) (dry : bool)
    (candles : list Candle) (w : World) (s : State) :
  (forall n b, account_balance w n = Some b -> (b <= 0)%Q) ->
  let out := open_position ai cfg inst dry candles w s in
  (forall r, fst out = Ok r -> r = None) /\
  cap_cache (snd out) = cap_cache s /\
  exists evs,
    trace (snd out) = (trace s ++ evs)%list /\
    forallb is_read evs = true /\ submissions evs = [] /\ plans evs = [].
Proof.
  intros Hbal out. subst out.
  assert (H : silent s (snd (open_position ai cfg inst dry candles w s)) /\
              (forall r, fst (open_position ai cfg inst dry candles w s) = Ok r ->
                         r = None)).
  { unfold open_position.
    apply step_silent.
    { destruct candles;
        [apply (ro_get_candles silent silent_refl silent_trans silent_read)
        |apply (keeps_ret silent silent_refl)]. }
    intros candles' s1 _.
    apply step_silent;
      [apply (ro_decide_direction silent silent_refl silent_trans silent_read)|].
    intros direction s2 _.
    apply step_silent;
      [apply (ro_get_position_mode silent silent_refl silent_trans silent_read)|].
    intros mode s3 _. cbv zeta.
    apply step_silent;
      [apply (ro_get_usdt_balance silent silent_refl silent_trans silent_read)|].
    intros balance s4 Hb.
    apply get_usdt_balance_value, Hbal in Hb.
    apply Qle_bool_iff in Hb. rewrite Hb. unfold ret. simpl.
    split; [apply silent_refl | congruence]. }
  destruct H as [[Hc [evs [Ht Hf]]] Hr].
  split; [exact Hr|]. split; [exact Hc|].
  exists evs. split; [exact Ht|]. split; [exact Hf|].
  clear -Hf. induction evs as [|e evs IH]; [split; reflexivity|].
  simpl in Hf. apply andb_true_iff in Hf. destruct Hf as [He Hf].
  destruct (IH Hf) as [H1 H2].
  destruct e; simpl in *; try (split; assumption); discriminate.
Qed.

Lemma open_position_needs_balance_witness :
  cap_cache (snd (open_position OpenAICompatClient live_cfg btc false [] broke_world start))
    = cap_cache start.
Proof.
  apply (proj1 (proj2 (open_position_needs_balance OpenAICompatClient live_cfg btc false []
                         broke_world start
                         ltac:(intros n b H; injection H as <-; discriminate)))).
Defined.

(** ** The orders of [open_position] *)

Lemma orders_satisfy_refl P s : orders_satisfy P s s.
Proof. exists []. rewrite app_nil_r. split; [reflexivity | constructor]. Qed.

Lemma orders_satisfy_trans P a b c :
  orders_satisfy P a b -> orders_satisfy P b c -> orders_satisfy P a c.
Proof.
  intros [e1 [H1 F1]] [e2 [H2 F2]]. exists (e1 ++ e2)%list. split.
  - rewrite H2, H1, app_assoc. reflexivity.
  - rewrite submissions_app. apply Forall_app. split; assumption.
Qed.

Lemma reads_only_orders P s s' : reads_only s s' -> orders_satisfy P s s'.
Proof.
  intros [_ [evs [Ht Hf]]]. exists evs. split; [exact Ht|].
  rewrite (no_order_no_submission evs Hf). constructor.
Qed.

Lemma step_orders {A B} P (m : M A) (k : A -> M B) w s :
  keeps reads_only m ->
  (forall a s1, orders_satisfy P s1 (snd (k a w s1))) ->
  orders_satisfy P s (snd (bind m k w s)).
Proof.
  intros Hm Hk. unfold bind. pose proof (reads_only_orders P _ _ (Hm w s)) as Hs.
  destruct (m w s) as [[a|e|] s1]; simpl in *; try assumption.
  eapply orders_satisfy_trans; [exact Hs | apply Hk].
Qed.

Lemma bind_ret_state {A B} (m : M A) (f : A -> B) w s :
  snd (bind m (fun a => ret (f a)) w s) = snd (m w s).
Proof. unfold bind, ret. destruct (m w s) as [[a|e|] s1]; reflexivity. Qed.

Lemma side_agrees_params inst td rq ord attach (direction : Decision) (mode : string) :
  side_agrees
    (params_of inst
       match direction with long => "buy" | short => "sell" end
       td rq ord
       (if String.eqb mode "net" then "net"
        else match direction with long => "long" | short => "short" end)
       attach).
Proof.
  unfold side_agrees, params_of.
  destruct direction, (String.eqb mode "net"); simpl; auto.
Qed.

Lemma bind_set_leverage {B} inst lever mgn ps (k : unit -> M B) w s :
  bind (set_leverage inst lever mgn ps) k w s =
    k tt w (record_call (ESetLeverage inst lever mgn ps) s).
Proof. reflexivity. Qed.

Ltac ro_side :=
  first [exact reads_only_refl | exact reads_only_trans | exact reads_only_read].

(** X20. Every order [open_position] submits, retries included, is a market
    order on the configured instrument in the configured margin mode, and its
    side agrees with its position side: buy with long, sell with short, or no
    position side in net mode -- never buy with short or sell with long. *)
Theorem open_position_orders_agree
    (ai : AIClient) (cfg : AppConfig) (inst : InstrumentConfig) (dry : bool)
    (candles : list Candle) (w : World) (s : State) :
  orders_satisfy
    (fun p => instId p = inst_id inst /\ tdMode p = margin_mode (trading cfg) /\
              ordType p = "market" /\ side_agrees p)
    s (snd (open_position ai cfg inst dry candles w s)).
Proof.
  set (P := fun p => instId p = inst_id inst /\ tdMode p = margin_mode (trading cfg) /\
                    ordType p = "market" /\ side_agrees p).
  unfold open_position.
  apply step_orders.
  { destruct candles; [apply ro_get_candles | apply keeps_ret]; ro_side. }
  intros candles' s1.
  apply step_orders; [apply ro_decide_direction; ro_side|].
  intros direction s2.
  apply step_orders; [apply ro_get_position_mode; ro_side|].
  intros mode s3. cbv zeta.
  apply step_orders; [apply ro_get_usdt_balance; ro_side|].
  intros balance s4.
  destruct (Qle_bool balance 0); [apply orders_satisfy_refl|].
  apply step_orders; [apply ro_plan_size_from_notional; ro_side|].
  intros sz_plan s5.
  rewrite bind_get_cached_position_cap. cbv zeta. rewrite bind_log.
  match goal with
  | |- orders_satisfy _ _ (snd (_ w ?mid)) => apply (orders_satisfy_trans _ _ mid)
  end.
  { apply reads_only_orders, reads_only_log. reflexivity. }
  destruct dry; [apply orders_satisfy_refl|].
  rewrite bind_set_leverage.
  match goal with
  | |- orders_satisfy _ ?s6 (snd (_ w ?s7)) => apply (orders_satisfy_trans _ _ s7)
  end.
  { eexists [_]. split; [reflexivity | constructor]. }
  rewrite bind_ret_state.
  match goal with
  | |- orders_satisfy _ ?s7
         (snd (place_order ?i ?sd ?td ?rq ?ord ?ps ?tp ?sl ?tpt ?slt ?lv w ?s7)) =>
      destruct (place_order_submissions i sd td rq ord ps tp sl tpt slt lv w s7)
        as [evs [Ht Hsub]];
      pose proof (fun attach => retry_of_fields i sd td rq ord ps attach) as Hfields;
      pose proof (fun attach => side_agrees_params i td rq ord attach direction mode)
        as Hagree
  end.
  exists evs. split; [exact Ht|].
  destruct Hsub as [->|[attach Hsub]]; [constructor|].
  destruct Hsub as [->|[p [-> Hr]]].
  - constructor; [|constructor].
    unfold P. repeat split. apply Hagree.
  - constructor; [unfold P; repeat split; apply Hagree|].
    constructor; [|constructor].
    destruct (Hfields attach p Hr) as [Hi [Htd [Hsd [Hord [Hps _]]]]].
    unfold P. repeat split; try assumption.
    specialize (Hagree attach).
    unfold side_agrees in *. rewrite Hps, Hsd. simpl in *. exact Hagree.
Qed.

(** ** The momentum test on the candles *)

Lemma closes_of_spec (cs : list Candle) :
  match closes_of cs with
  | Ok qs => map close_of cs = map Some qs
  | Raise _ => Exists (fun c => close_of c = None) cs
  | Running => False
  end.
Proof.
  induction cs as [|c cs IH]; [reflexivity|].
  cbn [closes_of map].
  assert (Hc : close_of c = match nth_error c 4 with
                            | Some (Some q) => Some q
                            | _ => None
                            end) by reflexivity.
  destruct (nth_error c 4) as [[q|]|]; cbn [float].
  - destruct (closes_of cs) as [qs|e|]; cbn [map].
    + rewrite Hc, IH. reflexivity.
    + right. exact IH.
    + exact IH.
  - left. exact Hc.
  - left. exact Hc.
Qed.

Lemma closes_ends (cs : list Candle) (qs : list Q) :
  map close_of cs = map Some qs -> cs <> [] ->
  close_of (hd [] cs) = Some (hd 0%Q qs) /\
  close_of (List.last cs []) = Some (List.last qs 0%Q).
Proof.
  revert qs. induction cs as [|c cs IH]; intros qs H Hne; [contradiction|].
  destruct qs as [|q qs]; [discriminate|].
  simpl in H. injection H as Hc H. split; [exact Hc|].
  destruct cs as [|c' cs].
  - destruct qs; [exact Hc | discriminate].
  - destruct qs as [|q' qs]; [discriminate|].
    apply (IH (q' :: qs) H). discriminate.
Qed.

Lemma readable_closes (cs : list Candle) (qs : list Q) :
  map close_of cs = map Some qs -> Forall readable cs.
Proof.
  revert qs. induction cs as [|c cs IH]; intros qs H; [constructor|].
  destruct qs as [|q qs]; [discriminate|].
  simpl in H. injection H as Hc H. constructor.
  - unfold readable. congruence.
  - apply (IH qs H).
Qed.

(** X21. The momentum test of both clients (the heuristic client on the first
    30 candles, the fallback of the OpenAI client on the first 10) answers
    ["long"] exactly when the window holds two candles or more, every candle
    of the window has a fifth field that is a number, and the close of the
    window's last candle exceeds the close of its first. One candle too short
    or with an unreadable close anywhere in the window turns the answer into
    ["short"]; candles beyond the window never matter. *)
Theorem momentum_long_exactly (window : nat) (candles : list Candle) :
  let win := firstn window candles in
  momentum window candles = long <->
  (2 <= length win)%nat /\ Forall readable win /\
  exists f l,
    close_of (hd [] win) = Some f /\ close_of (List.last win []) = Some l /\ (f < l)%Q.
Proof.
  intros win. unfold momentum. fold win.
  pose proof (closes_of_spec win) as Hspec.
  destruct (closes_of win) as [qs|e|]; [| |contradiction].
  - assert (Hlen : length qs = length win).
    { rewrite <- (length_map Some qs), <- Hspec. apply length_map. }
    rewrite Hlen.
    destruct (2 <=? length win)%nat eqn:L; simpl.
    + apply Nat.leb_le in L.
      assert (Hne : win <> []) by (destruct win; [simpl in L; lia | discriminate]).
      destruct (closes_ends win qs Hspec Hne) as [Hf Hl].
      destruct (Qltb (hd 0%Q qs) (List.last qs 0%Q)) eqn:B.
      * apply Qltb_lt in B. split; [intros _|reflexivity].
        split; [exact L|]. split; [apply (readable_closes win qs Hspec)|].
        exists (hd 0%Q qs), (List.last qs 0%Q). repeat split; assumption.
      * apply Qltb_ge in B. split; [discriminate|].
        intros [_ [_ [f [l [Ef [El Hlt]]]]]].
        rewrite Hf in Ef. rewrite Hl in El.
        injection Ef as <-. injection El as <-. lra.
    + apply Nat.leb_gt in L. split; [discriminate|]. intros [C _]. lia.
  - split; [discriminate|]. intros [_ [Hall _]]. exfalso.
    apply Exists_exists in Hspec. destruct Hspec as [c [Hin Hc]].
    rewrite Forall_forall in Hall. exact (Hall c Hin Hc).
Qed.

(** ** The cap figure of a rejection message *)

Lemma string_app_nil_r (a : string) : (a ++ "")%string = a.
Proof.
  induction a as [|c a IH]; [reflexivity|].
  change (String c (a ++ "")%string = String c a). f_equal. exact IH.
Qed.

Lemma string_app_assoc (a b c : string) :
  ((a ++ b) ++ c)%string = (a ++ (b ++ c))%string.
Proof.
  induction a as [|x a IH]; [reflexivity|].
  change (String x ((a ++ b) ++ c)%string = String x (a ++ (b ++ c))%string).
  f_equal. exact IH.
Qed.

Lemma prefix_app (p r : string) : String.prefix p (p ++ r)%string = true.
Proof.
  induction p as [|c p IH]; [destruct r; reflexivity|].
  change (String.prefix (String c p) (String c (p ++ r)%string) = true).
  cbn [String.prefix].
  destruct (ascii_dec c c) as [_|N]; [exact IH | contradiction].
Qed.

Lemma figure_run (run : string) :
  forall acc rest,
    all_chars is_digit_or_comma run = true ->
    (acc ++ run)%string <> ""%string ->
    first_contracts_figure (run ++ "(contracts)" ++ rest)%string acc
      = Some (acc ++ run)%string.
Proof.
  induction run as [|c run IH]; intros acc rest Hall Hne.
  - rewrite string_app_nil_r in *.
    change ("" ++ "(contracts)" ++ rest)%string
      with (String "("%char ("contracts)" ++ rest)%string).
    cbn [first_contracts_figure].
    change (is_digit_or_comma "("%char) with false. cbv iota.
    replace (String.eqb acc "") with false
      by (symmetry; apply String.eqb_neq; exact Hne).
    change (String "("%char ("contracts)" ++ rest)%string)
      with ("(contracts)" ++ rest)%string.
    rewrite prefix_app. reflexivity.
  - unfold all_chars in Hall. simpl in Hall.
    apply andb_true_iff in Hall. destruct Hall as [Hc Hall].
    change (String c run ++ "(contracts)" ++ rest)%string
      with (String c (run ++ "(contracts)" ++ rest)%string).
    cbn [first_contracts_figure]. rewrite Hc.
    rewrite (IH (acc ++ String c "")%string rest Hall).
    + rewrite string_app_assoc. reflexivity.
    + rewrite string_app_assoc. simpl. destruct acc; discriminate.
Qed.

Lemma figure_skips (pre : string) (tail : string) :
  all_chars (fun c => negb (is_digit_or_comma c)) pre = true ->
  first_contracts_figure (pre ++ tail)%string "" = first_contracts_figure tail "".
Proof.
  induction pre as [|c pre IH]; intros Hall; [reflexivity|].
  unfold all_chars in Hall. simpl in Hall.
  apply andb_true_iff in Hall. destruct Hall as [Hc Hall].
  apply negb_true_iff in Hc.
  change (String c pre ++ tail)%string with (String c (pre ++ tail)%string).
  cbn [first_contracts_figure]. rewrite Hc. simpl. apply IH, Hall.
Qed.

(** X22. A rejection message whose first digit or comma starts a figure that
    is directly followed by ["(contracts)"] names that figure as the cap: with
    no digit and no comma before it, [parse_cap] returns the figure read as a
    decimal number with its commas dropped, whatever follows. *)
Theorem parse_cap_reads_first_figure (pre run rest : string) (n : Z) :
  all_chars (fun c => negb (is_digit_or_comma c)) pre = true ->
  all_chars is_digit_or_comma run = true ->
  int_without_commas run = Some n ->
  parse_cap (pre ++ run ++ "(contracts)" ++ rest)%string = Some n.
Proof.
  intros Hpre Hrun Hn. unfold parse_cap.
  rewrite (figure_skips pre _ Hpre).
  rewrite (figure_run run "" rest Hrun).
  - change ("" ++ run)%string with run. rewrite Hn. reflexivity.
  - change ("" ++ run)%string with run. intros ->. discriminate.
Qed.

Lemma parse_cap_reads_first_figure_witness :
  parse_cap "Order failed. Max position is 1,500(contracts) at 100x, not 2000(contracts)"
    = Some 1500.
Proof.
  apply (parse_cap_reads_first_figure "Order failed. Max position is " "1,500"
           " at 100x, not 2000(contracts)" 1500); reflexivity.
Defined.
